(** * housing-prices: the Carousell scraper and the title normaliser

    A shallow embedding of [src/carousell_scraper.py] (page materialiser,
    field extractor, listing collector) and of [src/parser.py] (the
    normalisation worker pool), with the properties the design document
    states about them.

    Conventions.
    - A Python [str] is a [string]; one [ascii] stands for one code point
      below 256 (Latin-1), which is where the predicates [isspace] and
      [isdigit] below are tabulated.
    - A BeautifulSoup document is a tree of [node]s.  Elements found by a
      search keep the list of their preceding siblings, which is what
      [find_previous_sibling] walks.
    - Python exceptions are values of [exn]; code that may raise returns a
      [result]. *)

From Stdlib Require Import ZArith Lia Ascii String.
From stdpp Require Import base list gmap strings fin_maps.

Local Open Scope Z_scope.

(** ** Python exceptions *)

Inductive exn :=
| ValueError (msg : string)
| KeyError (key : string)
| TimeoutException
| ElementClickInterceptedException
| ElementNotInteractableException
| WebDriverException
| KeyboardInterrupt.

Global Instance exn_eq_dec : EqDecision exn.
Proof. solve_decision. Defined.

(** [except Exception] catches everything but the [BaseException]-only
    classes, of which [KeyboardInterrupt] is the representative here. *)
Definition is_Exception (e : exn) : bool :=
  match e with KeyboardInterrupt => false | _ => true end.

Inductive result (A : Type) :=
| Ok (a : A)
| Err (e : exn).
Global Arguments Ok {A} a.
Global Arguments Err {A} e.

Definition rbind {A B} (r : result A) (k : A → result B) : result B :=
  match r with Ok a => k a | Err e => Err e end.

(** ** Python string methods *)

Module PyStr.

(** [c.isspace()] for a code point below 256. *)
Definition isspace (c : ascii) : bool :=
  let n := nat_of_ascii c in
  ((9 <=? n)%nat && (n <=? 13)%nat) || ((28 <=? n)%nat && (n <=? 32)%nat)
  || (n =? 133)%nat || (n =? 160)%nat.

(** [c.isdigit()] for a code point below 256: the ASCII digits and the
    superscripts two, three and one. *)
Definition isdigit_char (c : ascii) : bool :=
  let n := nat_of_ascii c in
  ((48 <=? n)%nat && (n <=? 57)%nat)
  || (n =? 178)%nat || (n =? 179)%nat || (n =? 185)%nat.

(** [s.startswith(pre)] *)
Fixpoint startswith (s pre : string) {struct pre} : bool :=
  match pre with
  | EmptyString => true
  | String p pre' =>
      match s with
      | EmptyString => false
      | String c s' => if Ascii.eqb c p then startswith s' pre' else false
      end
  end.

(** [sub in s] *)
Fixpoint contains (sub s : string) : bool :=
  startswith s sub ||
  match s with
  | EmptyString => false
  | String _ r => contains sub r
  end.

Fixpoint lstrip (s : string) : string :=
  match s with
  | EmptyString => EmptyString
  | String c r => if isspace c then lstrip r else s
  end.

Fixpoint rstrip (s : string) : string :=
  match s with
  | EmptyString => EmptyString
  | String c r =>
      match rstrip r with
      | EmptyString => if isspace c then EmptyString else String c EmptyString
      | r' => String c r'
      end
  end.

(** [s.strip()] *)
Definition strip (s : string) : string := rstrip (lstrip s).

Fixpoint all_digits (s : string) : bool :=
  match s with
  | EmptyString => true
  | String c r => isdigit_char c && all_digits r
  end.

(** [s.isdigit()]: at least one character, and all of them digits. *)
Definition isdigit (s : string) : bool :=
  match s with
  | EmptyString => false
  | _ => all_digits s
  end.

(** [s.split(sep, maxsplit)] for a one-character separator. *)
Fixpoint split (sep : ascii) (s : string) (maxsplit : nat) {struct s}
  : list string :=
  match s with
  | EmptyString => [EmptyString]
  | String c r =>
      match maxsplit with
      | O => [s]
      | S m =>
          if Ascii.eqb c sep then EmptyString :: split sep r m
          else match split sep r maxsplit with
               | piece :: rest => String c piece :: rest
               | [] => [String c EmptyString]
               end
      end
  end.

(** [sep.join(l)] *)
Fixpoint join (sep : string) (l : list string) : string :=
  match l with
  | [] => EmptyString
  | [x] => x
  | x :: r => x +:+ sep +:+ join sep r
  end.

(** Python truthiness of a [str]. *)
Definition truthy (s : string) : bool :=
  match s with EmptyString => false | _ => true end.

End PyStr.

(** ** The BeautifulSoup tree *)

Module Soup.

(** A [Tag] carries its name, its single-valued attributes, its [class]
    attribute (which BeautifulSoup keeps as a list of class names, absent
    when the element has none) and its children.  A [Comment] is a string
    leaf that [.text] skips. *)
Local Unset Elimination Schemes.
Inductive node :=
| Tag (name : string) (attrs : gmap string string)
      (classes : option (list string)) (children : list node)
| NavigableString (s : string)
| Comment (s : string).
Local Set Elimination Schemes.

(** An element as a search returns it: the node and its preceding
    siblings, nearest first. *)
Record located := Located { elt : node; prev_siblings : list node }.

Definition name (n : node) : option string :=
  match n with Tag nm _ _ _ => Some nm | _ => None end.

(** [tag.get(key)] *)
Definition get (n : node) (key : string) : option string :=
  match n with Tag _ a _ _ => a !! key | _ => None end.

(** [tag.get(key, default)] *)
Definition get_default (n : node) (key dflt : string) : string :=
  default dflt (get n key).

(** Every node below [n] in document order (pre-order, [n] itself
    excluded), each with its preceding siblings. *)
Fixpoint descendants (n : node) : list located :=
  match n with
  | Tag _ _ _ ch =>
      (fix walk (prev : list node) (l : list node) : list located :=
         match l with
         | [] => []
         | c :: r => Located c prev :: descendants c ++ walk (c :: prev) r
         end) [] ch
  | _ => []
  end.

(** [tag.text]: the text leaves below the node, concatenated in document
    order; comments do not contribute. *)
Fixpoint text (n : node) : string :=
  match n with
  | Tag _ _ _ ch =>
      (fix cat (l : list node) : string :=
         match l with
         | [] => EmptyString
         | c :: r => text c +:+ cat r
         end) ch
  | NavigableString s => s
  | Comment _ => EmptyString
  end.

(** The two inner loops above, under names of their own. *)
Fixpoint walk (prev : list node) (l : list node) : list located :=
  match l with
  | [] => []
  | c :: r => Located c prev :: descendants c ++ walk (c :: prev) r
  end.


(** What a search may ask of one attribute: [True] (present), a string
    (equal to it), or a function of the value ([None] when absent). *)
Inductive attr_filter :=
| Present
| Equals (v : string)
| Satisfies (f : option string → bool).

Definition match_value (p : attr_filter) (v : option string) : bool :=
  match p with
  | Present => bool_decide (is_Some v)
  | Equals s => bool_decide (v = Some s)
  | Satisfies f => f v
  end.

(** A multi-valued attribute matches when one of its values does, or when
    the values joined by a space do. *)
Definition match_class (p : attr_filter) (cls : option (list string)) : bool :=
  match cls with
  | None => match_value p None
  | Some l =>
      existsb (λ c, match_value p (Some c)) l
      || match_value p (Some (PyStr.join " " l))
  end.

(** The search criteria of [find] and [find_all]: either a function of
    the tag, or a tag name with attribute filters and an optional filter
    on [class]. *)
Inductive criteria :=
| ByFunction (f : node → bool)
| ByName (nm : string) (attrs : list (string * attr_filter))
         (class_ : option attr_filter).

Definition matches (c : criteria) (n : node) : bool :=
  match n with
  | Tag nm a cls _ =>
      match c with
      | ByFunction f => f n
      | ByName want fs cf =>
          bool_decide (nm = want)
          && forallb (λ kf, match_value kf.2 (a !! kf.1)) fs
          && match cf with
             | None => true
             | Some p => match_class p cls
             end
      end
  | _ => false
  end.

(** [tag.find_all(...)] *)
Definition find_all (n : node) (c : criteria) : list located :=
  filter (λ d, matches c (elt d) = true) (descendants n).

(** [tag.find(...)] *)
Definition find (n : node) (c : criteria) : option located :=
  head (find_all n c).

(** [tag.find_previous_sibling(nm)] *)
Definition find_previous_sibling (d : located) (nm : string) : option node :=
  head (filter (λ s, name s = Some nm) (prev_siblings d)).


End Soup.

(** ** pandas data frames *)

(** A frame is its set of column labels and its rows, one dict per row in
    index order.  A key missing from a row is a NaN cell.  The order of the
    columns is not modelled. *)
Record DataFrame := {
  columns : gset string;
  rows : list (gmap string string)
}.

(** [pd.DataFrame(records)] for a list of dicts: the columns are the keys
    that occur, the rows are the dicts. *)
Definition DataFrame_of_records (records : list (gmap string string)) : DataFrame :=
  {| columns := ⋃ (dom <$> records); rows := records |}.

(** [df[key]]: the cells of one column, [None] for NaN. *)
Definition column (df : DataFrame) (key : string) : result (list (option string)) :=
  if decide (key ∈ columns df)
  then Ok ((λ r : gmap string string, r !! key) <$> rows df)
  else Err (KeyError key).

(** The number of columns of [pd.DataFrame(table)] for a list of lists:
    the longest row decides. *)
Definition width (table : list (list string)) : nat :=
  foldr (λ r, Nat.max (length r)) 0%nat table.

(** One row of [df[keys] = frame]: the cells go to the keys by position; a
    row of [table] that is too short leaves NaN. *)
Fixpoint assign (keys : list string) (cells : list string)
    (r : gmap string string) : gmap string string :=
  match keys with
  | [] => r
  | k :: ks =>
      match cells with
      | v :: vs => assign ks vs (<[k:=v]> r)
      | [] => assign ks [] (delete k r)
      end
  end.

(** [df[keys] = pd.DataFrame(table, index=df.index)].  The constructor
    rejects a table whose length differs from the index; the assignment
    rejects a frame whose number of columns differs from the number of
    keys.  (Messages of library errors are abbreviated.) *)
Definition setitem_frame (df : DataFrame) (keys : list string)
    (table : list (list string)) : result DataFrame :=
  if decide (length table = length (rows df)) then
    if decide (width table = length keys) then
      Ok {| columns := columns df ∪ list_to_set keys;
            rows := zip_with (assign keys) table (rows df) |}
    else Err (ValueError "Columns must be same length as key")
  else Err (ValueError "Shape of passed values does not match the index").

Global Instance result_ret : MRet result := λ A a, Ok a.
Global Instance result_bind : MBind result := λ A B k r, rbind r k.

(** ** [carousell_scraper.py]: the field extractor and the listing collector *)

Module Carousell.
Import PyStr Soup.

(** *** The browser session

    The selenium driver is the environment.  Every command sent to it is
    logged; the environment decides, from the log so far, whether the
    command succeeds or which exception it raises. *)

Inductive locator :=
| ByCss (selector : string)
| ByXpath (path : string).

(** [WaitVisible] and [WaitClickable] are [WebDriverWait(driver,
    timeout).until(...)] on [EC.visibility_of_element_located] and
    [EC.element_to_be_clickable]; an element is named by the locator that
    found it. *)
Inductive command :=
| Launch
| Get (url : string)
| WaitVisible (loc : locator) (timeout : Z)
| WaitClickable (loc : locator) (timeout : Z)
| Clear (el : locator)
| SendKeys (el : locator) (keys : string)
| ExecuteScript (script : string) (el : locator)
| Click (el : locator)
| PageSource
| Quit.

Global Instance locator_eq_dec : EqDecision locator.
Proof. solve_decision. Defined.
Global Instance command_eq_dec : EqDecision command.
Proof. solve_decision. Defined.

(** The commands issued so far, newest first. *)
Definition history := list command.

Inductive outcome (A : Type) :=
| Returns (a : A) (h : history)
| Raises (e : exn) (h : history)
| Diverges.
Global Arguments Returns {A} a h.
Global Arguments Raises {A} e h.
Global Arguments Diverges {A}.

Definition action (A : Type) := history → outcome A.

Definition ret {A} (a : A) : action A := λ h, Returns a h.
Definition raise {A} (e : exn) : action A := λ h, Raises e h.

Definition bind {A B} (m : action A) (k : A → action B) : action B :=
  λ h, match m h with
       | Returns a h' => k a h'
       | Raises e h' => Raises e h'
       | Diverges => Diverges
       end.

(** [try: m except ...: handler]; the handler declines ([None]) the
    exceptions its clauses do not name. *)
Definition try_except {A} (m : action A) (handler : exn → option (action A))
  : action A :=
  λ h, match m h with
       | Raises e h' =>
           match handler e with
           | Some k => k h'
           | None => Raises e h'
           end
       | o => o
       end.

(** [try: m finally: fin]; an exception of [fin] replaces whatever [m]
    produced. *)
Definition try_finally {A} (m : action A) (fin : action unit) : action A :=
  λ h, match m h with
       | Returns a h' =>
           match fin h' with
           | Returns _ h'' => Returns a h''
           | Raises e h'' => Raises e h''
           | Diverges => Diverges
           end
       | Raises e h' =>
           match fin h' with
           | Returns _ h'' => Raises e h''
           | Raises e' h'' => Raises e' h''
           | Diverges => Diverges
           end
       | Diverges => Diverges
       end.

Definition lift {A} (r : result A) : action A :=
  match r with Ok a => ret a | Err e => raise e end.

Global Instance action_ret : MRet action := @ret.
Global Instance action_bind : MBind action := λ A B k m, bind m k.

Section Materializer.
Variable browser : history → command → option exn.
Variable page_source : history → string.

Definition issue (c : command) : action unit :=
  λ h, match browser h c with
       | None => Returns tt (c :: h)
       | Some e => Raises e (c :: h)
       end.

(** [driver.page_source] *)
Definition read_page_source : action string :=
  λ h, match browser h PageSource with
       | None => Returns (page_source h) (PageSource :: h)
       | Some e => Raises e (PageSource :: h)
       end.

Definition js_click : string := "arguments[0].click();".

Definition label_xpath (location : string) : locator :=
  ByXpath ("//label[.//span[contains(normalize-space(.), '" +:+ location +:+ "')]]").

Definition click_checkbox_by_label (location : string) (timeout : Z) : action unit :=
  issue (WaitClickable (label_xpath location) timeout) ;;
  issue (ExecuteScript js_click (label_xpath location)).

Definition location_input : locator := ByCss "input[aria-label='Location']".

Definition _set_location_filter (location : string) : action unit :=
  try_except
    (issue (WaitVisible location_input 10) ;;
     issue (Clear location_input) ;;
     issue (SendKeys location_input location) ;;
     click_checkbox_by_label location 10)
    (λ e, match e with
          | TimeoutException => Some (raise e)
          | _ => None
          end).

Definition button_xpath : locator := ByXpath "//button[./div[text()='Search']]".
Definition show_more_button_xpath : locator :=
  ByXpath "//button[normalize-space(text())='Show more results']".

Definition _click_search_button : action unit :=
  try_except
    (issue (WaitClickable button_xpath 20) ;;
     issue (ExecuteScript js_click button_xpath) ;;
     issue (WaitClickable show_more_button_xpath 20))
    (λ e, match e with
          | TimeoutException => Some (ret tt)
          | _ => None
          end).

Definition show_more : locator :=
  ByXpath "//button[normalize-space()='Show more results']".

Definition scroll_into_view : string :=
  "arguments[0].scrollIntoView({block: 'center'});".

Definition _click_show_more : action bool :=
  try_except
    (issue (WaitClickable show_more 40) ;;
     issue (ExecuteScript scroll_into_view show_more) ;;
     try_except (issue (Click show_more))
       (λ e, match e with
             | ElementClickInterceptedException
             | ElementNotInteractableException =>
                 Some (issue (ExecuteScript js_click show_more))
             | _ => None
             end) ;;
     ret true)
    (λ e, match e with
          | TimeoutException => Some (ret false)
          | _ => if is_Exception e then Some (ret false) else None
          end).

(** [while max_clicks is None or click_count < max_clicks: ...].  The
    loop has no bound of its own when [max_clicks] is [None]; [fuel]
    bounds the iterations of the model, and running out of it is
    [Diverges].  The final [click_count] is returned. *)
Fixpoint show_more_loop (fuel : nat) (max_clicks : option Z) (click_count : Z)
  : action Z :=
  match fuel with
  | O => λ _, Diverges
  | S fuel' =>
      if match max_clicks with
         | None => true
         | Some m => click_count <? m
         end
      then
        clicked ← _click_show_more;
        if clicked : bool
        then show_more_loop fuel' max_clicks (click_count + 1)
        else ret click_count
      else ret click_count
  end.

Definition extract_html (fuel : nat) (search_result_page city_string : string)
    (max_clicks : option Z) : action string :=
  issue Launch ;;
  try_finally
    (issue (Get search_result_page) ;;
     _set_location_filter city_string ;;
     _click_search_button ;;
     show_more_loop fuel max_clicks 0 ;;
     read_page_source)
    (issue Quit).

(** What [extract_html] does between launching the browser and entering
    the loop: the page is opened, the filter set, the search started. *)
Definition first_screen (search_result_page city_string : string) : action unit :=
  issue (Get search_result_page) ;;
  _set_location_filter city_string ;;
  _click_search_button.

(** The body of the [try], cut where the loop begins. *)
Definition after_launch (fuel : nat) (url city : string) (max_clicks : option Z)
  : action string :=
  first_screen url city ≫= λ _,
  show_more_loop fuel max_clicks 0 ≫= λ _,
  read_page_source.

(** The commands [cs] (newest first), sent one after the other from the
    history [h], all succeed. *)
Fixpoint accepted (cs : list command) (h : history) : Prop :=
  match cs with
  | [] => True
  | c :: rest => accepted rest h ∧ browser (rest ++ h) c = None
  end.

End Materializer.

(** *** Vocabulary of the statements about the session *)

(** The history an action ends with, when it ends. *)
Definition final_history {A} (o : outcome A) : option history :=
  match o with
  | Returns _ h | Raises _ h => Some h
  | Diverges => None
  end.

(** [m] only ever adds commands to the history, and what it adds
    satisfies [P]. *)
Definition issues {A} (P : list command → Prop) (m : action A) : Prop :=
  ∀ h h', final_history (m h) = Some h' → ∃ cs, h' = cs ++ h ∧ P cs.

(** The number of times the load-more control was waited for. *)
Definition load_attempts (cs : list command) : nat :=
  length (filter (λ c, c = WaitClickable show_more 40) cs).

(** The commands that open and close the session do not occur. *)
Definition within_session (cs : list command) : Prop :=
  (Quit ∉ cs) ∧ (Launch ∉ cs).

(** A property of command lists that the empty list has and that
    concatenation keeps. *)
Definition closed (P : list command → Prop) : Prop :=
  P [] ∧ ∀ a b, P a → P b → P (b ++ a).

(** The action ends, whatever the history it starts from. *)
Definition terminates {A} (m : action A) : Prop := ∀ h, m h ≠ Diverges.

(** At most [k] waits for the load-more control. *)
Definition at_most (k : nat) (cs : list command) : Prop :=
  (load_attempts cs ≤ k)%nat.

(** Commands that are neither the launch, nor the quit, nor the wait for
    the load-more control. *)
Definition plain (c : command) : Prop :=
  c ≠ Quit ∧ c ≠ Launch ∧ c ≠ WaitClickable show_more 40.

(** *** Sample browsers *)

(** Everything works, but the load-more control never becomes clickable. *)
Definition single_screen : history → command → option exn :=
  λ _ c, match c with
         | WaitClickable loc _ =>
             if bool_decide (loc = show_more ∨ loc = show_more_button_xpath)
             then Some TimeoutException else None
         | _ => None
         end.

(** Everything works, but no filter option becomes clickable. *)
Definition no_filter_option : history → command → option exn :=
  λ _ c, match c with
         | WaitClickable _ 10 => Some TimeoutException
         | _ => None
         end.

(** Everything works, and the load-more control stays clickable. *)
Definition endless : history → command → option exn := λ _ _, None.

(** The filter can be set, but neither the Search button nor the load-more
    control ever becomes clickable. *)
Definition no_search_button : history → command → option exn :=
  λ _ c, match c with
         | WaitClickable _ 10 => None
         | WaitClickable _ _ => Some TimeoutException
         | _ => None
         end.

Definition blank_page : history → string := λ _, "<html></html>".

(** *** The field extractor

    [extract_from_card] is the closure inside [extract_listings].  Its body
    is a sequence of blocks, one per field, each under a comment of its own;
    every block is a definition here, named after the variable it assigns,
    and [extract_from_card] puts them together in the order of the source.
    The variables start as the empty string ([likes] as 0), which is what a
    block returns when it assigns nothing. *)

(** [tag[key]] raises [KeyError] when the attribute is absent. *)
Definition getitem (n : node) (key : string) : result string :=
  match get n key with
  | Some v => Ok v
  | None => Err (KeyError key)
  end.

(** [lambda x: x and sub in x] and its variants, as attribute filters. *)
Definition and_contains (subs : list string) : attr_filter :=
  Satisfies (λ x,
    match x with
    | Some s => truthy s && existsb (λ sub, contains sub s) subs
    | None => false
    end).

Definition and_startswith (pre : string) : attr_filter :=
  Satisfies (λ x,
    match x with
    | Some s => truthy s && startswith s pre
    | None => false
    end).

(** *** Title *)

(** [for p in p_tags: if p.text and len(p.text.strip()) > 0: ...; break] *)
Fixpoint first_p_text (title : string) (p_tags : list located) : string :=
  match p_tags with
  | [] => title
  | p :: rest =>
      if truthy (text (elt p))
         && (0 <? String.length (strip (text (elt p))))%nat
      then strip (text (elt p))
      else first_p_text title rest
  end.

(** [# Extract title: try <p title=...> else <p> text] *)
Definition extract_title (listing : node) : result string :=
  let title := EmptyString in
  match find listing (ByName "p" [("title", Present)] None) with
  | Some title_tag => getitem (elt title_tag) "title"
  | None => Ok (first_p_text title (find_all listing (ByName "p" [] None)))
  end.

(** *** Price *)

(** [lambda tag: tag.name == "span" and tag.get("title", "").startswith("PHP")] *)
Definition is_price_span (tag : node) : bool :=
  bool_decide (name tag = Some "span")
  && startswith (get_default tag "title" "") "PHP".

(** [for span in span_tags: if span.text.strip().startswith("PHP"): ...; break] *)
Fixpoint first_php_text (price : string) (span_tags : list located) : string :=
  match span_tags with
  | [] => price
  | span :: rest =>
      if startswith (strip (text (elt span))) "PHP"
      then strip (text (elt span))
      else first_php_text price rest
  end.

(** [# Extract price: try <span title=...> else <span> text startswith PHP] *)
Definition extract_price (listing : node) : result string :=
  let price := EmptyString in
  match find listing (ByFunction is_price_span) with
  | Some price_tag => getitem (elt price_tag) "title"
  | None => Ok (first_php_text price (find_all listing (ByName "span" [] None)))
  end.

(** *** Bedrooms, bathrooms, size and remarks *)

Record features := Features {
  bedrooms : string;
  bathrooms : string;
  size : string;
  remarks : string
}.

Definition no_features : features :=
  Features EmptyString EmptyString EmptyString EmptyString.

(** The icon test of the numeric branch:
    [prev_img and icon in prev_img.get("src", "")]. *)
Definition has_icon (prev_img : option node) (icon : string) : bool :=
  match prev_img with
  | Some img => contains icon (get_default img "src" "")
  | None => false
  end.

(** One pass of the loop body over a feature span. *)
Definition classify_feature (st : features) (span : located) : result features :=
  title_val ← getitem (elt span) "title";
  if contains "sqm" title_val then
    Ok (Features (bedrooms st) (bathrooms st) title_val (remarks st))
  else if isdigit title_val then
    let prev_img := find_previous_sibling span "img" in
    if has_icon prev_img "ic_bed.svg" then
      Ok (Features title_val (bathrooms st) (size st) (remarks st))
    else if has_icon prev_img "ic_bath.svg" then
      Ok (Features (bedrooms st) title_val (size st) (remarks st))
    else Ok st
  else
    Ok (Features (bedrooms st) (bathrooms st) (size st) title_val).

(** [for span in feature_spans: ...] *)
Fixpoint scan_features (st : features) (feature_spans : list located)
  : result features :=
  match feature_spans with
  | [] => Ok st
  | span :: rest => st' ← classify_feature st span; scan_features st' rest
  end.

Definition features_region (listing : node) : option located :=
  find listing (ByName "div" [] (Some (and_contains ["D_qc"]))).

Definition feature_spans (features_div : node) : list located :=
  find_all features_div (ByName "span" [("title", Present)] None).

(** [# Extract features: bedrooms, bathrooms, size] *)
Definition extract_features (listing : node) : result features :=
  match features_region listing with
  | Some features_div => scan_features no_features (feature_spans (elt features_div))
  | None => Ok no_features
  end.

(** *** Image, links, seller, likes, age *)

Definition site_origin : string := "https://www.carousell.ph".

Definition extract_image_url (listing : node) : result string :=
  match find listing (ByName "img" [("alt", Present); ("src", Present)] None) with
  | Some img_tag => getitem (elt img_tag) "src"
  | None => Ok EmptyString
  end.

Definition extract_link (listing : node) : result string :=
  match find listing (ByName "a" [("href", Present)] None) with
  | Some link_tag => href ← getitem (elt link_tag) "href"; Ok (site_origin +:+ href)
  | None => Ok EmptyString
  end.

Definition extract_seller_profile (listing : node) : result string :=
  match find listing (ByName "a" [("href", and_contains ["/u/"])] None) with
  | Some seller_tag => href ← getitem (elt seller_tag) "href"; Ok (site_origin +:+ href)
  | None => Ok EmptyString
  end.

Definition extract_seller_name (listing : node) : string :=
  match find listing
          (ByName "p" [("data-testid", Equals "listing-card-text-seller-name")] None) with
  | Some seller_name_tag => strip (text (elt seller_name_tag))
  | None => EmptyString
  end.

Definition extract_likes (listing : node) : string :=
  match find listing
          (ByName "button" [("data-testid", Equals "listing-card-btn-like")] None) with
  | Some likes_tag =>
      match find (elt likes_tag) (ByName "span" [] None) with
      | Some span => strip (text (elt span))
      | None => "0"
      end
  | None => "0"
  end.

Definition extract_days_ago (listing : node) : string :=
  match find listing (ByName "p" [] (Some (and_contains ["D_pw"; "D_jG"; "D_qa"]))) with
  | Some days_ago_tag => strip (text (elt days_ago_tag))
  | None => EmptyString
  end.

(** *** The record *)

(** The keys of the returned dict, in the order of the dict literal. *)
Definition record_keys : list string :=
  ["title"; "price"; "bedrooms"; "bathrooms"; "size"; "location"; "remarks";
   "image_url"; "listing_url"; "seller_profile"; "seller_name"; "likes";
   "days_ago"].

(** The returned dict.  [location] is initialised with the other variables
    and no block assigns it. *)
Definition extract_from_card (listing : node) : result (gmap string string) :=
  let location := EmptyString in
  title ← extract_title listing;
  price ← extract_price listing;
  feats ← extract_features listing;
  image_url ← extract_image_url listing;
  link ← extract_link listing;
  seller_profile ← extract_seller_profile listing;
  let seller_name := extract_seller_name listing in
  let likes := extract_likes listing in
  let days_ago := extract_days_ago listing in
  Ok (list_to_map
        [("title", title); ("price", price);
         ("bedrooms", bedrooms feats); ("bathrooms", bathrooms feats);
         ("size", size feats); ("location", location);
         ("remarks", remarks feats); ("image_url", image_url);
         ("listing_url", link); ("seller_profile", seller_profile);
         ("seller_name", seller_name); ("likes", likes);
         ("days_ago", days_ago)]).

(** *** Vocabulary of the statements about the feature scan *)

(** No bed or bath icon among the preceding siblings. *)
Definition no_icon_before (span : located) : Prop :=
  ∀ s, s ∈ prev_siblings span → name s = Some "img" →
       contains "ic_bed.svg" (get_default s "src" "") = false
       ∧ contains "ic_bath.svg" (get_default s "src" "") = false.

(** A count is empty or numeric. *)
Definition count_like (s : string) : Prop := s = EmptyString ∨ isdigit s = true.

(** A feature span whose value has no unit. *)
Definition without_unit (span : located) : Prop :=
  ∀ w, getitem (elt span) "title" = Ok w → contains "sqm" w = false.


(** *** Sample markup *)

Definition span_title (v : string) : node :=
  Tag "span" {[ "title" := v ]} None [NavigableString v].

Definition icon (src : string) : node :=
  Tag "img" {[ "src" := src ]} None [].

Definition features_box (feature_nodes : list node) : node :=
  Tag "div" ∅ (Some ["D_qc"]) feature_nodes.

Definition card (feature_nodes : list node) : node :=
  Tag "div" {[ "data-testid" := "listing-card-1" ]} None
    [features_box feature_nodes].

(** A document with two listing cards. *)
Definition sample_document : node :=
  Tag "[document]" ∅ None
    [Tag "html" ∅ None
       [Tag "head" ∅ None [Tag "title" ∅ None [NavigableString " Houses for sale "]];
        Tag "body" ∅ None
          [card [span_title "120 sqm"];
           Tag "div" ∅ None [card [icon "ic_bath.svg"; span_title "2"]];
           Tag "div" {[ "data-testid" := "banner" ]} None []]]].

(** *** The listing collector *)

(** [for listing in soup.find_all(...): listings.append(extract_from_card(listing))] *)
Fixpoint collect_cards (cards : list located) : result (list (gmap string string)) :=
  match cards with
  | [] => Ok []
  | listing :: rest =>
      r ← extract_from_card (elt listing);
      rs ← collect_cards rest;
      Ok (r :: rs)
  end.

Definition listing_cards (soup : node) : list located :=
  find_all soup (ByName "div" [("data-testid", and_startswith "listing-card-")] None).

Definition page_title_of (soup : node) : string :=
  match find soup (ByName "title" [] None) with
  | Some title_tag => strip (text (elt title_tag))
  | None => EmptyString
  end.

Section Collector.
(** [BeautifulSoup(html, "lxml")] *)
Variable BeautifulSoup : string → node.

Definition extract_listings (html : string) : result (string * DataFrame) :=
  let soup := BeautifulSoup html in
  let page_title := page_title_of soup in
  listings ← collect_cards (listing_cards soup);
  match listings with
  | [] => Err (ValueError "No listings were found")
  | _ => Ok (page_title, DataFrame_of_records listings)
  end.

Variable browser : history → command → option exn.
Variable page_source : history → string.



End Collector.

End Carousell.

(** ** [parser.py]: the normalisation worker pool *)

Module Parser.
Import PyStr.

(** *** [ThreadPoolExecutor.map]

    Every input gets a future; a worker that finishes task [i] stores its
    result in future [i].  [schedule] lists the tasks in the order in
    which they finish.  The task function is told how many calls have
    finished before it, so its result may depend on the order. *)
Section Executor.
Context {A B : Type}.
Variable fn : nat → A → B.
Variable iterable : list A.

Fixpoint complete (served : nat) (schedule : list nat)
    (futures : list (option B)) : list (option B) :=
  match schedule with
  | [] => futures
  | i :: rest =>
      match iterable !! i with
      | Some x => complete (S served) rest (<[i := Some (fn served x)]> futures)
      | None => complete served rest futures
      end
  end.

(** [list(...)] over the futures in submission order; a future that is
    never filled blocks for ever ([None]). *)
Fixpoint gather (futures : list (option B)) : option (list B) :=
  match futures with
  | [] => Some []
  | f :: rest =>
      match f, gather rest with
      | Some v, Some vs => Some (v :: vs)
      | _, _ => None
      end
  end.

Definition executor_map (schedule : list nat) : option (list B) :=
  gather (complete 0 schedule (replicate (length iterable) None)).
End Executor.

(** [ThreadPoolExecutor(max_workers=...)] refuses a bound that is not
    positive. *)
Definition ThreadPoolExecutor (max_workers : Z) : result unit :=
  if max_workers <=? 0
  then Err (ValueError "max_workers must be greater than 0")
  else Ok tt.

(** A NaN cell renders as [nan] in the prompt. *)
Definition content_of (cell : option string) : string := default "nan" cell.

(** [s.split("|", 1) if "|" in s else [s, ""]] *)
Definition split_response (s : string) : list string :=
  if contains "|" s then split "|" s 1 else [s; EmptyString].

(** [list(...)] over the results of [executor.map]: a call that raised has
    its exception stored in its future, and asking the futures for their
    results in submission order re-raises the first one met. *)
Fixpoint results_of {B : Type} (outcomes : list (result B)) : result (list B) :=
  match outcomes with
  | [] => Ok []
  | Err e :: _ => Err e
  | Ok v :: rest =>
      match results_of rest with
      | Ok vs => Ok (v :: vs)
      | Err e => Err e
      end
  end.

Section Normaliser.
(** The text-generation backend behind [chain.invoke]: what the request
    that finishes [k]-th gives for the given content and description (the
    prompt template is fixed), a response or an exception. *)
Variable model : nat → string → string → result string.

Definition parse_with_ollama (k : nat) (content parse_description : string)
  : result string :=
  model k content parse_description.

(** [None] stands for a call that never returns.  An exception of a
    backend call leaves [batch_parse] through [list(executor.map(...))],
    before any column is built. *)
Definition batch_parse (df : DataFrame) (text_column parse_description : string)
    (max_workers : Z) (schedule : list nat) : option (result DataFrame) :=
  match ThreadPoolExecutor max_workers with
  | Err e => Some (Err e)
  | Ok _ =>
      match column df text_column with
      | Err e => Some (Err e)
      | Ok contents =>
          match executor_map
                  (λ k c, parse_with_ollama k (content_of c) parse_description)
                  contents schedule with
          | None => None
          | Some outcomes =>
              match results_of outcomes with
              | Err e => Some (Err e)
              | Ok parsed =>
                  Some (setitem_frame df ["building"; "trans_type"]
                          (split_response <$> parsed))
              end
          end
      end
  end.
End Normaliser.

(** *** Sample input *)

Definition sample_frame : DataFrame :=
  DataFrame_of_records
    [ {[ "title" := "Ayala Triangle Tower for lease" ]};
      {[ "title" := "The Rise 3BR for rent" ]} ].

(** A backend whose answer depends on the order of arrival. *)
Definition sample_model (k : nat) (content parse_description : string)
  : result string :=
  match k with
  | O => Ok (content +:+ "|first")
  | _ => Ok (content +:+ "|later")
  end.

(** A backend that fails on every request but the first to finish. *)
Definition failing_model (k : nat) (content parse_description : string)
  : result string :=
  match k with
  | O => Ok (content +:+ "|sale")
  | _ => Err (ValueError "Ollama call failed with status code 500")
  end.

End Parser.

(** ** [main.py]: the script that runs the stages *)

Module Main.
Import PyStr Soup Carousell Parser.

(** [c.lower()] for a code point below 256: the ASCII capitals and the
    accented capitals (all of 192..222 but the multiplication sign) move up
    by 32; nothing else changes. *)
Definition lower_char (c : ascii) : ascii :=
  let n := nat_of_ascii c in
  if ((65 <=? n)%nat && (n <=? 90)%nat)
     || ((192 <=? n)%nat && (n <=? 222)%nat && negb (n =? 215)%nat)
  then ascii_of_nat (n + 32)
  else c.

(** [s.lower()] *)
Fixpoint lower (s : string) : string :=
  match s with
  | EmptyString => EmptyString
  | String c r => String (lower_char c) (lower r)
  end.

(** [replace_title(row, from_str, to_str)]; the row is a mapping from
    column labels to cells, and a label that is not there is a
    [KeyError]. *)
Definition replace_title (row : gmap string string) (from_str to_str : string)
  : result (gmap string string) :=
  match row !! "building" with
  | None => Err (KeyError "building")
  | Some building =>
      if contains (lower from_str) (lower building)
      then Ok (<["building" := to_str]> row)
      else Ok row
  end.

(** The five calls of the script, in its order, on one row. *)
Definition replace_titles (row : gmap string string) : result (gmap string string) :=
  row ← replace_title row "Ellis" "Ellis";
  row ← replace_title row "Rise" "The Rise";
  row ← replace_title row "Triomphe" "Le Triomphe";
  row ← replace_title row "Shang Salcedo" "Shang Salcedo Place";
  replace_title row "Two Roxas" "Two Roxas".

Section Script.
Variable BeautifulSoup : string → node.
Variable browser : history → command → option exn.
Variable page_source : history → string.
Variable model : nat → string → string → result string.

Definition script_url : string :=
  "https://www.carousell.ph/categories/property-102/"
  +:+ "property-house-and-lot-for-sale-868/?addRecent=true"
  +:+ "&canChangeKeyword=true&includeSuggestions=true&location_ids=174"
  +:+ "&search=salcedo&searchId=fjRYnH&t-search_query_source=direct_search".

Definition script_description : string :=
  "Extract only the building name, know that it is in the Philippines. "
  +:+ "You need to be SURE of your response and strictly follow formats.".

(** The first three statements of the script: materialise, collect,
    normalise.  [extract_html] is called without a bound on the clicks and
    [batch_parse] with ten workers; a call of the pool that never returns
    is [Diverges], and an exception of [batch_parse], a backend call's
    included, ends the script. *)
Definition normalised_listings (fuel : nat) (schedule : list nat) : action DataFrame :=
  pages_html ← extract_html browser page_source fuel script_url "Salcedo Village" None;
  collected ← lift (extract_listings BeautifulSoup pages_html);
  match batch_parse model collected.2 "title" script_description 10 schedule with
  | Some r => lift r
  | None => λ _, Diverges
  end.

End Script.

End Main.

(** ** Vocabulary of the further statements *)

Module Vocabulary.
Import PyStr Soup Carousell.

(** The four variables the feature loop assigns. *)
Inductive field := Bedrooms | Bathrooms | Size | Remarks.

Global Instance field_eq_dec : EqDecision field.
Proof. solve_decision. Defined.

Definition read (f : field) (st : features) : string :=
  match f with
  | Bedrooms => bedrooms st
  | Bathrooms => bathrooms st
  | Size => size st
  | Remarks => remarks st
  end.

(** The variable a feature span is stored in, if any. *)
Definition destination (span : located) : option field :=
  match get (elt span) "title" with
  | None => None
  | Some v =>
      if contains "sqm" v then Some Size
      else if isdigit v then
        if has_icon (find_previous_sibling span "img") "ic_bed.svg"
        then Some Bedrooms
        else if has_icon (find_previous_sibling span "img") "ic_bath.svg"
        then Some Bathrooms
        else None
      else Some Remarks
  end.

(** The values of the spans stored in [f], in document order. *)
Definition values_for (f : field) (spans : list located) : list string :=
  omap (λ span, if decide (destination span = Some f)
                then get (elt span) "title" else None) spans.

(** The two hyperlink searches of the record. *)
Definition any_link : criteria := ByName "a" [("href", Present)] None.

Definition profile_link : criteria :=
  ByName "a" [("href", and_contains ["/u/"])] None.

(** The building a row holds after [replace_title], given the one it
    held. *)
Definition renamed (from_str to_str building : string) : string :=
  if contains (Main.lower from_str) (Main.lower building) then to_str else building.

(** The same for the five calls of the script. *)
Definition canonical (building : string) : string :=
  renamed "Two Roxas" "Two Roxas"
    (renamed "Shang Salcedo" "Shang Salcedo Place"
       (renamed "Triomphe" "Le Triomphe"
          (renamed "Rise" "The Rise" (renamed "Ellis" "Ellis" building)))).

(** The newest command of the history is the one that raised [e]. *)
Definition newest_raised (browser : history → command → option exn)
    (e : exn) (h : history) : Prop :=
  ∃ c rest, h = c :: rest ∧ browser rest c = Some e.

(** The loop was left because the bound was reached, not because an
    attempt failed. *)
Definition stopped_by_bound (max_clicks : option Z) (final : Z) : bool :=
  match max_clicks with
  | Some n => bool_decide (n ≤ final)
  | None => false
  end.

End Vocabulary.

(** * Properties *)

(** ** Strings *)

Module PyStrFacts.
Import PyStr.

Lemma app_nil_l (s : string) : EmptyString +:+ s = s.
Proof. reflexivity. Qed.

Lemma app_cons (c : ascii) (a b : string) :
  String c a +:+ b = String c (a +:+ b).
Proof. reflexivity. Qed.

Lemma app_nil_r (s : string) : s +:+ EmptyString = s.
Proof. induction s as [|c s IH]; [done|]. by rewrite app_cons, IH. Qed.

Lemma app_assoc (a b c : string) : (a +:+ b) +:+ c = a +:+ b +:+ c.
Proof. induction a as [|x a IH]; [done|]. by rewrite !app_cons, IH. Qed.

Lemma startswith_spec (s pre : string) :
  startswith s pre = true ↔ ∃ r, s = pre +:+ r.
Proof.
  revert s. induction pre as [|p pre IH]; intros s; simpl.
  - split; [intros _; by exists s | done].
  - destruct s as [|c s].
    + split; [done | intros [r Hr]; rewrite app_cons in Hr; discriminate].
    + destruct (Ascii.eqb_spec c p) as [->|Hne].
      * rewrite IH. split; intros [r Hr]; exists r.
        -- by rewrite app_cons, Hr.
        -- rewrite app_cons in Hr. by injection Hr.
      * split; [done|]. intros [r Hr]. rewrite app_cons in Hr.
        injection Hr as Hc _. by destruct Hne.
Qed.

Lemma contains_spec (sub s : string) :
  contains sub s = true ↔ ∃ a b, s = a +:+ sub +:+ b.
Proof.
  induction s as [|c s IH].
  - simpl. rewrite orb_false_r, startswith_spec. split.
    + intros [r Hr]. by exists EmptyString, r.
    + intros ([|x a] & b & Hab); [by exists b|]. rewrite app_cons in Hab. discriminate.
  - cbn [contains]. rewrite orb_true_iff, startswith_spec, IH. split.
    + intros [[r Hr] | (a & b & Hab)].
      * by exists EmptyString, r.
      * exists (String c a), b. by rewrite app_cons, Hab.
    + intros ([|x a] & b & Hab).
      * left. by exists b.
      * right. rewrite app_cons in Hab. injection Hab as _ Hs. by exists a, b.
Qed.


Lemma contains_char (c : ascii) (x : ascii) (s : string) :
  contains (String c EmptyString) (String x s)
  = Ascii.eqb x c || contains (String c EmptyString) s.
Proof. cbn [contains startswith]. by destruct (Ascii.eqb x c). Qed.






Lemma split_zero (sep : ascii) (s : string) : split sep s 0 = [s].
Proof. by destruct s. Qed.

(** [split] cuts at the first separator. *)
Lemma split_first (sep : ascii) (a b : string) :
  contains (String sep EmptyString) a = false →
  split sep (a +:+ String sep b) 1 = [a; b].
Proof.
  induction a as [|c a IH]; intros Ha.
  - rewrite app_nil_l. cbn [split]. by rewrite Ascii.eqb_refl, split_zero.
  - rewrite contains_char in Ha. apply orb_false_iff in Ha as [Hc Ha].
    rewrite app_cons. cbn [split]. by rewrite Hc, IH.
Qed.

(** A string that has the separator splits at its first occurrence. *)
Lemma first_occurrence (sep : ascii) (s : string) :
  contains (String sep EmptyString) s = true →
  ∃ a b, s = a +:+ String sep b ∧ contains (String sep EmptyString) a = false.
Proof.
  induction s as [|c s IH]; [done|]. rewrite contains_char.
  destruct (Ascii.eqb_spec c sep) as [->|Hne]; simpl.
  - intros _. by exists EmptyString, s.
  - intros (a & b & -> & Ha)%IH. exists (String c a), b. split; [done|].
    rewrite contains_char, Ha. by destruct (Ascii.eqb_spec c sep).
Qed.

Lemma all_digits_no_letter (s : string) (c : ascii) (a b : string) :
  all_digits s = true → isdigit_char c = false → s ≠ a +:+ String c b.
Proof.
  revert s. induction a as [|x a IH]; intros [|y s] Hs Hc; try done.
  - rewrite app_nil_l. intros [= -> ->]. simpl in Hs. by rewrite Hc in Hs.
  - rewrite app_cons. intros [= -> ->]. simpl in Hs.
    apply andb_true_iff in Hs as [_ Hs]. by eapply IH.
Qed.

(** A numeric value carries no unit. *)
Lemma isdigit_not_sqm (s : string) : isdigit s = true → contains "sqm" s = false.
Proof.
  intros Hd. destruct (contains "sqm" s) eqn:E; [|done].
  apply contains_spec in E as (a & b & ->).
  assert (all_digits (a +:+ "sqm" +:+ b) = true) as Hall.
  { by destruct (a +:+ "sqm" +:+ b). }
  by eapply (all_digits_no_letter _ "s" a ("qm" +:+ b)) in Hall.
Qed.

End PyStrFacts.

(** ** The document tree *)

Module SoupFacts.
Import PyStr PyStrFacts Soup.




Lemma find_all_elem (n : node) (c : criteria) (d : located) :
  d ∈ find_all n c ↔ matches c (elt d) = true ∧ d ∈ descendants n.
Proof. unfold find_all. by rewrite list_elem_of_filter. Qed.

Lemma find_Some (n : node) (c : criteria) (d : located) :
  find n c = Some d → matches c (elt d) = true ∧ d ∈ descendants n.
Proof. intros H%head_Some_elem_of. by apply find_all_elem. Qed.

Lemma find_None (n : node) (c : criteria) :
  find n c = None ↔ find_all n c = [].
Proof. unfold find. by destruct (find_all n c). Qed.

(** A tag found under a presence filter has the attribute. *)
Lemma matches_present nm fs cf (n : node) (k : string) :
  matches (ByName nm fs cf) n = true → (k, Present) ∈ fs → is_Some (get n k).
Proof.
  destruct n as [nm' a cls ch| |]; [|done..]. simpl.
  intros [[_ Hfs]%andb_true_iff _]%andb_true_iff Hk.
  rewrite forallb_forall in Hfs. apply list_elem_of_In in Hk.
  specialize (Hfs _ Hk). simpl in Hfs. by apply bool_decide_eq_true in Hfs.
Qed.

Lemma matches_filter nm fs cf (n : node) (k : string) (p : attr_filter) :
  matches (ByName nm fs cf) n = true → (k, p) ∈ fs → match_value p (get n k) = true.
Proof.
  destruct n as [nm' a cls ch| |]; [|done..]. simpl.
  intros [[_ Hfs]%andb_true_iff _]%andb_true_iff Hk.
  rewrite forallb_forall in Hfs. apply list_elem_of_In in Hk.
  by specialize (Hfs _ Hk).
Qed.

End SoupFacts.

(** ** The field extractor *)

Module ExtractorFacts.
Import PyStr PyStrFacts Soup SoupFacts Carousell.

(** *** No lookup of the extractor raises *)

Lemma getitem_Some (n : node) (k : string) :
  is_Some (get n k) → ∃ v, getitem n k = Ok v.
Proof. intros [v Hv]. exists v. unfold getitem. by rewrite Hv. Qed.

Lemma getitem_present (listing : node) nm fs cf (d : located) (k : string) :
  find listing (ByName nm fs cf) = Some d → (k, Present) ∈ fs →
  ∃ v, getitem (elt d) k = Ok v.
Proof.
  intros [Hm _]%find_Some Hk. apply getitem_Some. by eapply matches_present.
Qed.

Lemma extract_title_total (listing : node) : ∃ v, extract_title listing = Ok v.
Proof.
  unfold extract_title. destruct (find _ _) as [d|] eqn:E; [|by eexists].
  eapply getitem_present; [done|]. apply list_elem_of_here.
Qed.

Lemma is_price_span_title (n : node) :
  is_price_span n = true →
  ∃ v, getitem n "title" = Ok v ∧ startswith v "PHP" = true.
Proof.
  unfold is_price_span, get_default, getitem.
  intros [_ H]%andb_true_iff. destruct (get n "title") as [v|]; [by exists v | done].
Qed.

Lemma matches_function (f : node → bool) (n : node) :
  matches (ByFunction f) n = true → f n = true.
Proof. by destruct n. Qed.

Lemma extract_price_total (listing : node) : ∃ v, extract_price listing = Ok v.
Proof.
  unfold extract_price. destruct (find _ _) as [d|] eqn:E; [|by eexists].
  apply find_Some in E as [Hm _]. apply matches_function in Hm.
  destruct (is_price_span_title _ Hm) as (v & Hv & _). by exists v.
Qed.

Lemma feature_span_title (features_div : node) (span : located) :
  span ∈ feature_spans features_div → ∃ v, getitem (elt span) "title" = Ok v.
Proof.
  intros [Hm _]%find_all_elem. apply getitem_Some.
  eapply matches_present; [done|]. apply list_elem_of_here.
Qed.

Lemma classify_feature_total (st : features) (span : located) (v : string) :
  getitem (elt span) "title" = Ok v → ∃ st', classify_feature st span = Ok st'.
Proof.
  intros Hv. unfold classify_feature. rewrite Hv. simpl.
  repeat case_match; by eexists.
Qed.

Lemma scan_features_total (st : features) (spans : list located) :
  (∀ span, span ∈ spans → ∃ v, getitem (elt span) "title" = Ok v) →
  ∃ st', scan_features st spans = Ok st'.
Proof.
  revert st. induction spans as [|span rest IH]; intros st Hall; [by eexists|].
  destruct (Hall span) as [v Hv]; [apply list_elem_of_here|].
  destruct (classify_feature_total st span v Hv) as [st1 H1].
  destruct (IH st1) as [st2 H2].
  { intros s Hs. apply Hall. by apply list_elem_of_further. }
  exists st2. simpl. by rewrite H1.
Qed.

Lemma extract_features_total (listing : node) :
  ∃ feats, extract_features listing = Ok feats.
Proof.
  unfold extract_features. destruct (features_region listing) as [d|]; [|by eexists].
  apply scan_features_total. intros span. apply feature_span_title.
Qed.

Lemma extract_image_url_total (listing : node) :
  ∃ v, extract_image_url listing = Ok v.
Proof.
  unfold extract_image_url. destruct (find _ _) as [d|] eqn:E; [|by eexists].
  eapply getitem_present; [done|]. apply list_elem_of_further, list_elem_of_here.
Qed.

Lemma extract_link_total (listing : node) : ∃ v, extract_link listing = Ok v.
Proof.
  unfold extract_link. destruct (find _ _) as [d|] eqn:E; [|by eexists].
  destruct (getitem_present _ _ _ _ _ "href" E) as [v Hv]; [apply list_elem_of_here|].
  rewrite Hv. by eexists.
Qed.

Lemma extract_seller_profile_total (listing : node) :
  ∃ v, extract_seller_profile listing = Ok v.
Proof.
  unfold extract_seller_profile. destruct (find _ _) as [d|] eqn:E; [|by eexists].
  apply find_Some in E as [Hm _].
  eapply (matches_filter _ _ _ _ "href") in Hm; [|apply list_elem_of_here].
  unfold getitem. simpl in Hm. destruct (get (elt d) "href"); [by eexists | done].
Qed.

(** The record is always produced; it has the thirteen keys, and each
    holds what the extraction of that field gave. *)
Lemma extract_from_card_Ok (listing : node) :
  ∃ title price feats image_url link seller_profile r,
    extract_title listing = Ok title ∧ extract_price listing = Ok price ∧
    extract_features listing = Ok feats ∧
    extract_image_url listing = Ok image_url ∧
    extract_link listing = Ok link ∧
    extract_seller_profile listing = Ok seller_profile ∧
    extract_from_card listing = Ok r ∧
    dom r = list_to_set record_keys ∧
    r !! "title" = Some title ∧ r !! "price" = Some price ∧
    r !! "bedrooms" = Some (bedrooms feats) ∧
    r !! "bathrooms" = Some (bathrooms feats) ∧
    r !! "size" = Some (size feats) ∧
    r !! "location" = Some EmptyString ∧
    r !! "remarks" = Some (remarks feats) ∧
    r !! "image_url" = Some image_url ∧
    r !! "listing_url" = Some link ∧
    r !! "seller_profile" = Some seller_profile ∧
    r !! "seller_name" = Some (extract_seller_name listing) ∧
    r !! "likes" = Some (extract_likes listing) ∧
    r !! "days_ago" = Some (extract_days_ago listing).
Proof.
  destruct (extract_title_total listing) as [title Ht],
    (extract_price_total listing) as [price Hp],
    (extract_features_total listing) as [feats Hf],
    (extract_image_url_total listing) as [image_url Hi],
    (extract_link_total listing) as [link Hl],
    (extract_seller_profile_total listing) as [seller_profile Hs].
  exists title, price, feats, image_url, link, seller_profile. eexists.
  do 6 (split; [done|]).
  split; [unfold extract_from_card; by rewrite Ht, Hp, Hf, Hi, Hl, Hs|].
  split; [by rewrite dom_list_to_map_L|].
  repeat split; reflexivity.
Qed.

(** *** The feature scan *)

Lemma scan_features_app (st : features) (a b : list located) :
  scan_features st (a ++ b) = (st' ← scan_features st a; scan_features st' b).
Proof.
  revert st. induction a as [|x a IH]; intros st; [done|]. simpl.
  destruct (classify_feature st x) as [st1|e]; simpl; [apply IH | done].
Qed.

Lemma classify_sqm (st : features) (span : located) (v : string) :
  getitem (elt span) "title" = Ok v → contains "sqm" v = true →
  classify_feature st span = Ok (Features (bedrooms st) (bathrooms st) v (remarks st)).
Proof. intros Hv Hs. unfold classify_feature. rewrite Hv. simpl. by rewrite Hs. Qed.

(** The numeric branch assigns nothing unless the nearest preceding
    [img] sibling is a bed or a bath icon. *)
Lemma classify_numeric_skipped (st : features) (span : located) (v : string) :
  getitem (elt span) "title" = Ok v → isdigit v = true →
  has_icon (find_previous_sibling span "img") "ic_bed.svg" = false →
  has_icon (find_previous_sibling span "img") "ic_bath.svg" = false →
  classify_feature st span = Ok st.
Proof.
  intros Hv Hd Hbed Hbath. unfold classify_feature. rewrite Hv. simpl.
  by rewrite (isdigit_not_sqm _ Hd), Hd, Hbed, Hbath.
Qed.

Lemma no_icon_before_has_icon (span : located) (icon : string) :
  no_icon_before span → icon = "ic_bed.svg" ∨ icon = "ic_bath.svg" →
  has_icon (find_previous_sibling span "img") icon = false.
Proof.
  intros Hno Hicon. unfold has_icon, find_previous_sibling.
  destruct (head _) as [img|] eqn:E; [|done].
  apply head_Some_elem_of, list_elem_of_filter in E as [Hname Hin].
  destruct (Hno img Hin Hname) as [Hbed Hbath]. by destruct Hicon as [-> | ->].
Qed.

Lemma classify_feature_counts (st st' : features) (span : located) :
  classify_feature st span = Ok st' →
  count_like (bedrooms st) ∧ count_like (bathrooms st) →
  count_like (bedrooms st') ∧ count_like (bathrooms st').
Proof.
  unfold classify_feature. destruct (getitem _ _) as [v|]; [simpl|done].
  intros H [Hbed Hbath].
  destruct (contains "sqm" v); [by injection H as <-|].
  destruct (isdigit v) eqn:Hd; [|by injection H as <-].
  repeat case_match; injection H as <-; simpl; split; try done; by right.
Qed.

Lemma scan_features_counts (st st' : features) (spans : list located) :
  scan_features st spans = Ok st' →
  count_like (bedrooms st) ∧ count_like (bathrooms st) →
  count_like (bedrooms st') ∧ count_like (bathrooms st').
Proof.
  revert st. induction spans as [|x r IH]; intros st; simpl.
  - by intros [= <-].
  - destruct (classify_feature st x) as [st1|] eqn:E; [simpl|done].
    intros H Hst. eapply IH; [done|]. by eapply classify_feature_counts.
Qed.

Lemma scan_features_keeps_size (st st' : features) (spans : list located) :
  (∀ s, s ∈ spans → without_unit s) →
  scan_features st spans = Ok st' → size st' = size st.
Proof.
  revert st. induction spans as [|x r IH]; intros st Hall; simpl.
  - by intros [= <-].
  - destruct (classify_feature st x) as [st1|] eqn:E; [simpl|done].
    intros H. rewrite (IH st1); [| |done].
    + unfold classify_feature in E. destruct (getitem _ _) as [v|] eqn:Hv; [simpl in E|done].
      rewrite (Hall x (list_elem_of_here _ _) v Hv) in E.
      repeat case_match; by injection E as <-.
    + intros s Hs. apply Hall. by apply list_elem_of_further.
Qed.

Lemma sqm_not_count (v : string) : contains "sqm" v = true → ¬ count_like v.
Proof.
  intros Hs [-> | Hd]; [done|]. by rewrite (isdigit_not_sqm _ Hd) in Hs.
Qed.

(** The remarks are never a numeric value: only the last branch of the
    loop body assigns them, and only from a value that is not numeric. *)
Lemma scan_features_remarks (st st' : features) (spans : list located) :
  scan_features st spans = Ok st' →
  isdigit (remarks st) = false → isdigit (remarks st') = false.
Proof.
  revert st. induction spans as [|x r IH]; intros st; simpl.
  - by intros [= <-].
  - destruct (classify_feature st x) as [st1|] eqn:E; [simpl|done].
    intros H Hst. apply (IH st1 H).
    unfold classify_feature in E. destruct (getitem _ _) as [v|]; [simpl in E|done].
    destruct (contains "sqm" v); [by injection E as <-|].
    destruct (isdigit v) eqn:Hd; [|by injection E as <-].
    repeat case_match; by injection E as <-.
Qed.

(** *** The claims about the feature scan *)

(** C1, as amended.  A feature value that is purely numeric and has no bed
    or bath icon among its preceding siblings is assigned to no field: the
    loop body leaves bedrooms, bathrooms, size and remarks as they were,
    so the scan of the features region gives what it gives without that
    node; the record of the card has, in these four fields, what the other
    feature nodes of the region give, and its remarks are not that value. *)
Theorem numeric_without_icon_is_skipped (span : located) (v : string) :
  getitem (elt span) "title" = Ok v → isdigit v = true → no_icon_before span →
  (∀ st, classify_feature st span = Ok st)
  ∧ (∀ st before after,
       scan_features st (before ++ span :: after) = scan_features st (before ++ after))
  ∧ (∀ listing features_div before after,
       features_region listing = Some features_div →
       feature_spans (elt features_div) = before ++ span :: after →
       extract_features listing = scan_features no_features (before ++ after))
  ∧ (∀ listing features_div before after,
       features_region listing = Some features_div →
       feature_spans (elt features_div) = before ++ span :: after →
       ∃ st r,
         scan_features no_features (before ++ after) = Ok st
         ∧ extract_from_card listing = Ok r
         ∧ r !! "bedrooms" = Some (bedrooms st)
         ∧ r !! "bathrooms" = Some (bathrooms st)
         ∧ r !! "size" = Some (size st)
         ∧ r !! "remarks" = Some (remarks st)
         ∧ r !! "remarks" ≠ Some v).
Proof.
  intros Hv Hd Hno.
  assert (∀ st, classify_feature st span = Ok st) as Hskip.
  { intros st. apply (classify_numeric_skipped st span v Hv Hd);
      apply no_icon_before_has_icon; auto. }
  assert (∀ st before after,
    scan_features st (before ++ span :: after) = scan_features st (before ++ after))
    as Hscan.
  { intros st before after. rewrite !scan_features_app.
    destruct (scan_features st before) as [st1|]; [simpl|done]. by rewrite Hskip. }
  assert (∀ listing features_div before after,
       features_region listing = Some features_div →
       feature_spans (elt features_div) = before ++ span :: after →
       extract_features listing = scan_features no_features (before ++ after))
    as Hregion.
  { intros listing features_div before after Hreg Hspans.
    unfold extract_features. by rewrite Hreg, Hspans, Hscan. }
  do 3 (split; [done|]).
  intros listing features_div before after Hreg Hspans.
  destruct (extract_from_card_Ok listing)
    as (title & price & feats & image_url & link & seller_profile & r
        & _ & _ & Hfeats & _ & _ & _ & Hr & _ & _ & _
        & Hbed & Hbath & Hsize & _ & Hremarks & _).
  rewrite (Hregion _ _ _ _ Hreg Hspans) in Hfeats.
  exists feats, r. do 6 (split; [done|]).
  rewrite Hremarks. intros [= E].
  apply scan_features_remarks in Hfeats; [|done]. congruence.
Qed.

Lemma numeric_without_icon_is_skipped_witness :
  (∀ st, classify_feature st (Located (span_title "3") []) = Ok st)
  ∧ extract_features (card [span_title "3"]) = Ok no_features
  ∧ ∃ r, extract_from_card (card [span_title "3"]) = Ok r
         ∧ r !! "remarks" ≠ Some "3".
Proof.
  destruct (numeric_without_icon_is_skipped (Located (span_title "3") []) "3")
    as (Hskip & _ & Hcard & Hrecord).
  - reflexivity.
  - reflexivity.
  - intros s Hs. simpl in Hs. by apply elem_of_nil in Hs.
  - split; [exact Hskip|]. split.
    + apply (Hcard (card [span_title "3"])
               (Located (features_box [span_title "3"]) []) [] []); reflexivity.
    + destruct (Hrecord (card [span_title "3"])
                  (Located (features_box [span_title "3"]) []) [] [])
        as (st & r & _ & Hr & _ & _ & _ & _ & Hne); [reflexivity..|].
      exists r. split; [exact Hr | exact Hne].
Defined.

(** C1, as stated, fails: the card whose features region holds the single
    value 3, with no icon before it, gets empty remarks. *)
Lemma numeric_without_icon_not_in_remarks :
  let span := Located (span_title "3") [] in
  let listing := card [span_title "3"] in
  features_region listing = Some (Located (features_box [span_title "3"]) [])
  ∧ feature_spans (features_box [span_title "3"]) = [span]
  ∧ getitem (elt span) "title" = Ok "3"
  ∧ isdigit "3" = true
  ∧ find_previous_sibling span "img" = None
  ∧ ∃ r, extract_from_card listing = Ok r
         ∧ r !! "remarks" = Some EmptyString
         ∧ contains "3" EmptyString = false.
Proof.
  repeat split; try reflexivity.
  eexists. split; [reflexivity|]. split; reflexivity.
Qed.

(** The other fields are not covered: a skipped node may still be the one
    the price is read from, so the record with the node and the record
    without it can differ. *)
Example numeric_node_may_set_price :
  let priced := Tag "span" {[ "title" := "3" ]} None [NavigableString "PHP 5"] in
  (r ← extract_from_card (card [priced]); Ok (r !! "price", r !! "remarks"))
  = Ok (Some "PHP 5", Some EmptyString)
  ∧ (r ← extract_from_card (card []); Ok (r !! "price", r !! "remarks"))
    = Ok (Some EmptyString, Some EmptyString).
Proof. split; reflexivity. Qed.

(** C7.  A feature value that contains the unit sqm is classified as size:
    the loop body stores it in size and in nothing else, the record's
    bedrooms and bathrooms are never that value, and the record's size is
    that value unless a later value with the unit replaces it. *)
Theorem sqm_value_is_size (listing : node) (features_div span : located)
    (before after : list located) (v : string) :
  features_region listing = Some features_div →
  feature_spans (elt features_div) = before ++ span :: after →
  getitem (elt span) "title" = Ok v →
  contains "sqm" v = true →
  (∀ st, classify_feature st span
         = Ok (Features (bedrooms st) (bathrooms st) v (remarks st)))
  ∧ ∃ r, extract_from_card listing = Ok r
         ∧ r !! "bedrooms" ≠ Some v
         ∧ r !! "bathrooms" ≠ Some v
         ∧ ((∀ s, s ∈ after → without_unit s) → r !! "size" = Some v).
Proof.
  intros Hreg Hspans Hv Hsqm.
  split; [intros st; by apply classify_sqm|].
  destruct (extract_from_card_Ok listing)
    as (title & price & feats & image_url & link & seller & r & _ & _ & Hf & _ & _ & _
        & Hr & _ & _ & _ & Hrbed & Hrbath & Hrsize & _).
  exists r. split; [exact Hr|].
  unfold extract_features in Hf. rewrite Hreg, Hspans in Hf.
  pose proof (scan_features_counts _ _ _ Hf) as [Hbed Hbath].
  { split; by left. }
  pose proof (sqm_not_count v Hsqm) as Hnot.
  rewrite Hrbed, Hrbath, Hrsize. split; [|split].
  - intros [= E]. by rewrite E in Hbed.
  - intros [= E]. by rewrite E in Hbath.
  - intros Hafter. rewrite scan_features_app in Hf.
    destruct (scan_features no_features before) as [st1|]; [simpl in Hf|done].
    rewrite (classify_sqm st1 span v Hv Hsqm) in Hf. simpl in Hf.
    apply scan_features_keeps_size in Hf; [|done]. by rewrite Hf.
Qed.

Lemma sqm_value_is_size_witness :
  ∃ r, extract_from_card
         (card [icon "ic_bed.svg"; span_title "2"; span_title "45 sqm"]) = Ok r
       ∧ r !! "bedrooms" ≠ Some "45 sqm"
       ∧ r !! "bathrooms" ≠ Some "45 sqm"
       ∧ r !! "size" = Some "45 sqm".
Proof.
  pose (box := [icon "ic_bed.svg"; span_title "2"; span_title "45 sqm"]).
  destruct (sqm_value_is_size (card box) (Located (features_box box) [])
              (Located (span_title "45 sqm") [span_title "2"; icon "ic_bed.svg"])
              [Located (span_title "2") [icon "ic_bed.svg"]] [] "45 sqm")
    as (_ & r & Hr & Hbed & Hbath & Hsize); try reflexivity.
  exists r. repeat split; try done.
  apply Hsize. intros s Hs. by apply elem_of_nil in Hs.
Defined.

(** *** Title and price *)






Example price_from_attribute :
  extract_price
    (Tag "div" ∅ None
       [Tag "span" ∅ None [NavigableString " PHP 7 "];
        Tag "span" {[ "title" := "PHP 9" ]} None []])
  = Ok "PHP 9".
Proof. reflexivity. Qed.

(** The trimmed text of a span may get its marker from two text nodes. *)
Example price_from_text :
  extract_price
    (Tag "div" ∅ None
       [Tag "span" ∅ None [NavigableString "9 PHP"];
        Tag "span" ∅ None
          [NavigableString " P"; Tag "b" ∅ None [NavigableString "HP"];
           NavigableString " 5 "]])
  = Ok "PHP 5".
Proof. reflexivity. Qed.

(** *** The shape of the record *)


(** A container with nothing in it gives the record of defaults. *)
Example record_of_empty_card :
  extract_from_card (Tag "div" ∅ None [])
  = Ok (list_to_map
          [("title", EmptyString); ("price", EmptyString);
           ("bedrooms", EmptyString); ("bathrooms", EmptyString);
           ("size", EmptyString); ("location", EmptyString);
           ("remarks", EmptyString); ("image_url", EmptyString);
           ("listing_url", EmptyString); ("seller_profile", EmptyString);
           ("seller_name", EmptyString); ("likes", "0");
           ("days_ago", EmptyString)]).
Proof. reflexivity. Qed.

(** C10.  The record always carries a location key, and its value is the
    empty string whatever the container holds. *)
Theorem location_is_always_empty (listing : node) :
  ∃ r, extract_from_card listing = Ok r ∧ r !! "location" = Some EmptyString.
Proof.
  destruct (extract_from_card_Ok listing)
    as (title & price & feats & image_url & link & seller & r
        & _ & _ & _ & _ & _ & _ & Hr & _ & _ & _ & _ & _ & _ & Hloc & _).
  by exists r.
Qed.

End ExtractorFacts.

(** ** The page materialiser *)

Module SessionFacts.
Import Carousell.

(** *** What the combinators do to the history *)

Lemma issues_weaken {A} (P Q : list command → Prop) (m : action A) :
  (∀ cs, P cs → Q cs) → issues P m → issues Q m.
Proof.
  intros HPQ Hm h h' Hh. destruct (Hm h h' Hh) as (cs & -> & Hcs).
  exists cs. auto.
Qed.

Lemma issues_ret {A} (P : list command → Prop) (a : A) : P [] → issues P (ret a).
Proof. intros HP h h' [= <-]. by exists []. Qed.

Lemma issues_raise {A} (P : list command → Prop) (e : exn) :
  P [] → issues P (raise (A:=A) e).
Proof. intros HP h h' [= <-]. by exists []. Qed.

Lemma issues_bind {A B} (P Q R : list command → Prop)
    (m : action A) (k : A → action B) :
  issues P m → (∀ a, issues Q (k a)) →
  (∀ a, P a → R a) → (∀ a b, P a → Q b → R (b ++ a)) →
  issues R (m ≫= k).
Proof.
  intros Hm Hk HPR HPQR h h'. unfold mbind, action_bind, bind.
  specialize (Hm h). destruct (m h) as [a h1|e h1|]; [|simpl|done].
  - destruct (Hm h1 eq_refl) as (c1 & -> & Hc1). intros Hh.
    destruct (Hk a _ _ Hh) as (c2 & -> & Hc2).
    exists (c2 ++ c1). split; [by rewrite app_assoc | auto].
  - intros [= <-]. destruct (Hm h1 eq_refl) as (c1 & -> & Hc1). exists c1. auto.
Qed.

Lemma issues_try_except {A} (P Q R : list command → Prop)
    (m : action A) (handler : exn → option (action A)) :
  issues P m → (∀ e k, handler e = Some k → issues Q k) →
  (∀ a, P a → R a) → (∀ a b, P a → Q b → R (b ++ a)) →
  issues R (try_except m handler).
Proof.
  intros Hm Hk HPR HPQR h h'. unfold try_except.
  specialize (Hm h). destruct (m h) as [a h1|e h1|]; [simpl| |done].
  - intros [= <-]. destruct (Hm h1 eq_refl) as (c1 & -> & Hc1). exists c1. auto.
  - destruct (Hm h1 eq_refl) as (c1 & -> & Hc1).
    destruct (handler e) as [k|] eqn:E.
    + intros Hh. destruct (Hk e k E _ _ Hh) as (c2 & -> & Hc2).
      exists (c2 ++ c1). split; [by rewrite app_assoc | auto].
    + intros [= <-]. exists c1. auto.
Qed.

Lemma issues_try_finally {A} (P Q R : list command → Prop)
    (m : action A) (fin : action unit) :
  issues P m → issues Q fin → (∀ a b, P a → Q b → R (b ++ a)) →
  issues R (try_finally m fin).
Proof.
  intros Hm Hf HPQR h h'. unfold try_finally.
  specialize (Hm h). destruct (m h) as [a h1|e h1|]; [| |done];
    destruct (Hm h1 eq_refl) as (c1 & -> & Hc1);
    specialize (Hf (c1 ++ h)); destruct (fin (c1 ++ h)) as [u h2|e2 h2|]; try done;
    intros [= <-]; destruct (Hf h2 eq_refl) as (c2 & -> & Hc2);
    exists (c2 ++ c1); (split; [by rewrite app_assoc | auto]).
Qed.

Section Closed.
Variable P : list command → Prop.
Hypothesis HP : closed P.

Lemma issues_bind_closed {A B} (m : action A) (k : A → action B) :
  issues P m → (∀ a, issues P (k a)) → issues P (m ≫= k).
Proof.
  intros Hm Hk. apply (issues_bind P P P); [done|done|done|]. apply HP.
Qed.

Lemma issues_try_except_closed {A} (m : action A) (handler : exn → option (action A)) :
  issues P m → (∀ e k, handler e = Some k → issues P k) →
  issues P (try_except m handler).
Proof.
  intros Hm Hk. apply (issues_try_except P P P); [done|done|done|]. apply HP.
Qed.
End Closed.

(** *** Termination of the combinators *)

Lemma terminates_ret {A} (a : A) : terminates (ret a).
Proof. by intros h. Qed.

Lemma terminates_raise {A} (e : exn) : terminates (raise (A:=A) e).
Proof. by intros h. Qed.

Lemma terminates_bind {A B} (m : action A) (k : A → action B) :
  terminates m → (∀ a, terminates (k a)) → terminates (m ≫= k).
Proof.
  intros Hm Hk h. unfold mbind, action_bind, bind. specialize (Hm h).
  destruct (m h); [apply Hk|done..].
Qed.

Lemma terminates_try_except {A} (m : action A) (handler : exn → option (action A)) :
  terminates m → (∀ e k, handler e = Some k → terminates k) →
  terminates (try_except m handler).
Proof.
  intros Hm Hk h. unfold try_except. specialize (Hm h).
  destruct (m h) as [| e h1 |]; [done| |done].
  destruct (handler e) as [k|] eqn:E; [by eapply Hk | done].
Qed.

Lemma terminates_try_finally {A} (m : action A) (fin : action unit) :
  terminates m → terminates fin → terminates (try_finally m fin).
Proof.
  intros Hm Hf h. unfold try_finally. specialize (Hm h).
  destruct (m h) as [a h1|e h1|]; [| |done];
    specialize (Hf h1); by destruct (fin h1).
Qed.

(** *** The helpers of [extract_html] *)

Lemma load_attempts_app (a b : list command) :
  load_attempts (b ++ a) = (load_attempts b + load_attempts a)%nat.
Proof. unfold load_attempts. by rewrite filter_app, length_app. Qed.

Lemma at_most_app (i j : nat) (a b : list command) :
  at_most i a → at_most j b → at_most (j + i) (b ++ a).
Proof. unfold at_most. rewrite load_attempts_app. lia. Qed.

Lemma at_most_zero_closed : closed (at_most 0).
Proof.
  split; [unfold at_most, load_attempts; simpl; lia|].
  intros a b Ha Hb. apply (at_most_app 0 0 a b Ha Hb).
Qed.

Lemma at_most_mono_zero (k : nat) (cs : list command) : at_most 0 cs → at_most k cs.
Proof. unfold at_most. lia. Qed.

Lemma at_most_other (c : command) : c ≠ WaitClickable show_more 40 → at_most 0 [c].
Proof.
  intros Hc. unfold at_most, load_attempts.
  rewrite filter_cons_False by done. simpl. lia.
Qed.

Lemma within_session_closed : closed within_session.
Proof.
  split; [split; apply not_elem_of_nil|].
  intros a b [Ha1 Ha2] [Hb1 Hb2]. split; rewrite elem_of_app; tauto.
Qed.

Lemma within_session_single (c : command) :
  c ≠ Quit → c ≠ Launch → within_session [c].
Proof. intros H1 H2. split; rewrite list_elem_of_singleton; congruence. Qed.

Ltac plain_command :=
  repeat split; let H := fresh in intros H; vm_compute in H; discriminate H.

Section Session.
Variable browser : history → command → option exn.
Variable page_source : history → string.

Lemma issues_issue (P : list command → Prop) (c : command) :
  P [c] → issues P (issue browser c).
Proof.
  intros HP h h'. unfold issue. destruct (browser h c); intros [= <-]; by exists [c].
Qed.

Lemma issues_read (P : list command → Prop) :
  P [PageSource] → issues P (read_page_source browser page_source).
Proof.
  intros HP h h'. unfold read_page_source.
  destruct (browser h PageSource); intros [= <-]; by exists [PageSource].
Qed.

Lemma terminates_issue (c : command) : terminates (issue browser c).
Proof. intros h. unfold issue. by destruct (browser h c). Qed.

Lemma terminates_read : terminates (read_page_source browser page_source).
Proof. intros h. unfold read_page_source. by destruct (browser h PageSource). Qed.

Section Plain.
Variable P : list command → Prop.
Hypothesis HP : closed P.
Hypothesis Hplain : ∀ c, plain c → P [c].

Lemma issues_set_location_filter (location : string) :
  issues P (_set_location_filter browser location).
Proof.
  unfold _set_location_filter, click_checkbox_by_label.
  apply issues_try_except_closed; [done| |].
  - repeat (apply issues_bind_closed; [done| |intros _]);
      apply issues_issue, Hplain; plain_command.
  - intros e k Hk. destruct e; simplify_eq/=. apply issues_raise, HP.
Qed.

Lemma issues_click_search_button : issues P (_click_search_button browser).
Proof.
  unfold _click_search_button.
  apply issues_try_except_closed; [done| |].
  - repeat (apply issues_bind_closed; [done| |intros _]);
      apply issues_issue, Hplain; plain_command.
  - intros e k Hk. destruct e; simplify_eq/=. apply issues_ret, HP.
Qed.

Lemma issues_first_screen (url city : string) :
  issues P (first_screen browser url city).
Proof.
  unfold first_screen.
  apply issues_bind_closed; [done| |intros _].
  { apply issues_issue, Hplain; plain_command. }
  apply issues_bind_closed; [done| |intros _].
  - apply issues_set_location_filter.
  - apply issues_click_search_button.
Qed.
End Plain.

(** *** One load-more attempt *)

Lemma issues_click_show_more_session :
  issues within_session (_click_show_more browser).
Proof.
  pose proof within_session_closed as HP. unfold _click_show_more.
  apply issues_try_except_closed; [done| |].
  - apply issues_bind_closed; [done| |intros _].
    { by apply issues_issue, within_session_single. }
    apply issues_bind_closed; [done| |intros _].
    { by apply issues_issue, within_session_single. }
    apply issues_bind_closed; [done| |intros _]; [|apply issues_ret, HP].
    apply issues_try_except_closed; [done| |].
    + by apply issues_issue, within_session_single.
    + intros e k Hk. destruct e; simplify_eq/=;
        by apply issues_issue, within_session_single.
  - intros e k Hk. destruct e; simplify_eq/=; apply issues_ret, HP.
Qed.

Lemma issues_click_show_more_attempts :
  issues (at_most 1) (_click_show_more browser).
Proof.
  pose proof at_most_zero_closed as HP. unfold _click_show_more.
  apply (issues_try_except (at_most 1) (at_most 0) (at_most 1)); [| |done|].
  - apply (issues_bind (at_most 1) (at_most 0) (at_most 1)); [|intros _|done|].
    + apply issues_issue. unfold at_most, load_attempts. vm_compute. lia.
    + apply issues_bind_closed; [done| |intros _].
      { apply issues_issue, at_most_other. discriminate. }
      apply issues_bind_closed; [done| |intros _]; [|apply issues_ret, HP].
      apply issues_try_except_closed; [done| |].
      * apply issues_issue, at_most_other. discriminate.
      * intros e k Hk. destruct e; simplify_eq/=;
          apply issues_issue, at_most_other; discriminate.
    + intros a b Ha Hb. apply (at_most_app 1 0 a b Ha Hb).
  - intros e k Hk. destruct e; simplify_eq/=; apply issues_ret, HP.
  - intros a b Ha Hb. apply (at_most_app 1 0 a b Ha Hb).
Qed.

Lemma terminates_click_show_more : terminates (_click_show_more browser).
Proof.
  unfold _click_show_more. apply terminates_try_except.
  - repeat (apply terminates_bind; [|intros _]);
      try apply terminates_issue; try apply terminates_ret.
    apply terminates_try_except; [apply terminates_issue|].
    intros e k Hk. destruct e; simplify_eq/=; apply terminates_issue.
  - intros e k Hk. destruct e; simplify_eq/=; apply terminates_ret.
Qed.

(** Only what [except Exception] does not catch leaves [_click_show_more]. *)
Lemma click_show_more_raises (h h' : history) (e : exn) :
  _click_show_more browser h = Raises e h' → is_Exception e = false.
Proof.
  unfold _click_show_more, try_except at 1.
  destruct (_ ≫= _) as [a h1|e1 h1|]; [done| |done].
  destruct e1; simpl; intros [= <- <-]; done.
Qed.

(** A timeout of the wait ends the attempt at once, with [False]. *)
Lemma click_show_more_timeout (h : history) :
  browser h (WaitClickable show_more 40) = Some TimeoutException →
  _click_show_more browser h = Returns false (WaitClickable show_more 40 :: h).
Proof.
  intros H. unfold _click_show_more, try_except, mbind, action_bind, bind, issue.
  by rewrite H.
Qed.

(** *** The loop *)

Lemma issues_loop_session (fuel : nat) (max_clicks : option Z) (click_count : Z) :
  issues within_session (show_more_loop browser fuel max_clicks click_count).
Proof.
  pose proof within_session_closed as HP.
  revert click_count. induction fuel as [|fuel IH]; intros click_count; [by intros h h'|].
  simpl. destruct (match max_clicks with None => true | Some m => click_count <? m end);
    [|apply issues_ret, HP].
  apply issues_bind_closed; [done|apply issues_click_show_more_session|].
  intros [|]; [apply IH | apply issues_ret, HP].
Qed.

Lemma at_most_nil (k : nat) : at_most k [].
Proof. unfold at_most, load_attempts. simpl. lia. Qed.

Lemma issues_loop_attempts (fuel : nat) (n click_count : Z) :
  issues (at_most (Z.to_nat (n - click_count)))
    (show_more_loop browser fuel (Some n) click_count).
Proof.
  revert click_count. induction fuel as [|fuel IH]; intros click_count; [by intros h h'|].
  simpl. destruct (click_count <? n) eqn:E; [|apply issues_ret, at_most_nil].
  apply Z.ltb_lt in E.
  apply (issues_bind (at_most 1) (at_most (Z.to_nat (n - (click_count + 1))))).
  - apply issues_click_show_more_attempts.
  - intros [|]; [apply IH | apply issues_ret, at_most_nil].
  - unfold at_most. intros a Ha. lia.
  - intros a b Ha Hb. pose proof (at_most_app _ _ a b Ha Hb) as H.
    unfold at_most in *. lia.
Qed.

Lemma terminates_loop (fuel : nat) (n click_count : Z) :
  (Z.to_nat (n - click_count) < fuel)%nat →
  terminates (show_more_loop browser fuel (Some n) click_count).
Proof.
  revert click_count. induction fuel as [|fuel IH]; intros click_count Hfuel; [lia|].
  simpl. destruct (click_count <? n) eqn:E; [|apply terminates_ret].
  apply Z.ltb_lt in E.
  apply terminates_bind; [apply terminates_click_show_more|].
  intros [|]; [apply IH; lia | apply terminates_ret].
Qed.

(** The counter only grows, and not beyond the bound. *)
Lemma loop_count (fuel : nat) (max_clicks : option Z) (click_count : Z)
    (h h' : history) (final : Z) :
  show_more_loop browser fuel max_clicks click_count h = Returns final h' →
  click_count ≤ final ∧ ∀ n, max_clicks = Some n → final ≤ Z.max click_count n.
Proof.
  revert click_count h. induction fuel as [|fuel IH]; intros click_count h; [done|].
  simpl.
  destruct (match max_clicks with None => true | Some m => click_count <? m end) eqn:E.
  - unfold mbind, action_bind, bind.
    destruct (_click_show_more browser h) as [[|] h1|e h1|]; [| |done..].
    + intros [Hle Hmax]%IH. split; [lia|]. intros n ->. specialize (Hmax n eq_refl). 
      apply Z.ltb_lt in E. lia.
    + intros [= <- <-]. split; [lia|]. intros n _. lia.
  - intros [= <- <-]. split; [lia|]. intros n _. lia.
Qed.

Lemma loop_raises (fuel : nat) (max_clicks : option Z) (click_count : Z)
    (h h' : history) (e : exn) :
  show_more_loop browser fuel max_clicks click_count h = Raises e h' →
  is_Exception e = false.
Proof.
  revert click_count h. induction fuel as [|fuel IH]; intros click_count h; [done|].
  simpl. destruct (match max_clicks with None => true | Some m => click_count <? m end);
    [|done].
  unfold mbind, action_bind, bind.
  destruct (_click_show_more browser h) as [[|] h1|e1 h1|] eqn:E; [|done| |done].
  - apply IH.
  - intros [= <- <-]. by eapply click_show_more_raises.
Qed.

(** A load-more control that is not clickable ends the loop at its first
    test, with the counter where it was. *)
Lemma loop_exhausted (fuel : nat) (max_clicks : option Z) (click_count : Z)
    (h : history) :
  browser h (WaitClickable show_more 40) = Some TimeoutException →
  show_more_loop browser (S fuel) max_clicks click_count h
  = Returns click_count
      ((if match max_clicks with None => true | Some m => click_count <? m end
        then [WaitClickable show_more 40] else []) ++ h).
Proof.
  intros H. simpl.
  destruct (match max_clicks with None => true | Some m => click_count <? m end); [|done].
  unfold mbind, action_bind, bind. by rewrite click_show_more_timeout.
Qed.

(** *** The whole call *)

Lemma terminates_first_screen (url city : string) :
  terminates (first_screen browser url city).
Proof.
  unfold first_screen, _set_location_filter, _click_search_button,
    click_checkbox_by_label.
  repeat first
    [ apply terminates_issue | apply terminates_ret | apply terminates_raise
    | apply terminates_bind; [|intros _]
    | apply terminates_try_except; [|intros e k Hk; destruct e; simplify_eq/=] ].
Qed.

Lemma extract_html_unfold (fuel : nat) (url city : string) (max_clicks : option Z)
    (h : history) :
  extract_html browser page_source fuel url city max_clicks h
  = match browser h Launch with
    | Some e => Raises e (Launch :: h)
    | None =>
        try_finally (after_launch browser page_source fuel url city max_clicks)
          (issue browser Quit) (Launch :: h)
    end.
Proof.
  unfold extract_html, mbind, action_bind, bind at 1. unfold issue at 1.
  destruct (browser h Launch); [done|].
  unfold try_finally, after_launch, first_screen, mbind, action_bind, bind.
  destruct (issue browser (Get url) (Launch :: h)) as [? h1|? h1|]; [|done..].
  destruct (_set_location_filter browser city h1); done.
Qed.

Lemma issues_after_launch_session (fuel : nat) (url city : string)
    (max_clicks : option Z) :
  issues within_session (after_launch browser page_source fuel url city max_clicks).
Proof.
  pose proof within_session_closed as HP. unfold after_launch.
  apply issues_bind_closed; [done| |intros _].
  { apply issues_first_screen; [done|]. intros c (H1 & H2 & _).
    by apply within_session_single. }
  apply issues_bind_closed; [done|apply issues_loop_session|intros _].
  by apply issues_read, within_session_single.
Qed.

Lemma issues_after_launch_attempts (fuel : nat) (url city : string) (n : Z) :
  issues (at_most (Z.to_nat n))
    (after_launch browser page_source fuel url city (Some n)).
Proof.
  pose proof at_most_zero_closed as HP. unfold after_launch.
  apply (issues_bind (at_most 0) (at_most (Z.to_nat n))); [|intros _| |].
  - apply issues_first_screen; [done|]. intros c (_ & _ & H). by apply at_most_other.
  - apply (issues_bind (at_most (Z.to_nat n)) (at_most 0)); [|intros _|done|].
    + pose proof (issues_loop_attempts fuel n 0) as H. by rewrite Z.sub_0_r in H.
    + apply issues_read, at_most_other. discriminate.
    + intros a b Ha Hb. apply (at_most_app _ 0 a b Ha Hb).
  - unfold at_most. intros a Ha. lia.
  - intros a b Ha Hb. pose proof (at_most_app _ _ a b Ha Hb) as H.
    by rewrite Nat.add_0_r in H.
Qed.

Lemma terminates_extract_html (fuel : nat) (url city : string) (n : Z) :
  (Z.to_nat n < fuel)%nat →
  terminates (extract_html browser page_source fuel url city (Some n)).
Proof.
  intros Hfuel h. rewrite extract_html_unfold. destruct (browser h Launch); [done|].
  apply terminates_try_finally; [|apply terminates_issue].
  unfold after_launch.
  apply terminates_bind; [apply terminates_first_screen|intros _].
  apply terminates_bind; [|intros _; apply terminates_read].
  apply terminates_loop. by rewrite Z.sub_0_r.
Qed.

Lemma after_launch_returns (fuel : nat) (url city : string) (max_clicks : option Z)
    (h0 h2 : history) (markup : string) :
  after_launch browser page_source fuel url city max_clicks h0 = Returns markup h2 →
  ∃ cs, h2 = PageSource :: cs ++ h0 ∧ within_session cs
        ∧ markup = page_source (cs ++ h0).
Proof.
  unfold after_launch, mbind, action_bind, bind.
  destruct (first_screen browser url city h0) as [[] h1|e h1|] eqn:H1; [|done..].
  destruct (show_more_loop browser fuel max_clicks 0 h1) as [c h1'|e h1'|] eqn:H2;
    [|done..].
  unfold read_page_source. destruct (browser h1' PageSource); [done|].
  intros [= <- <-].
  destruct (issues_first_screen within_session within_session_closed
              (λ c Hc, within_session_single c (proj1 Hc) (proj1 (proj2 Hc)))
              url city h0 h1) as (c1 & -> & Hc1); [by rewrite H1|].
  destruct (issues_loop_session fuel max_clicks 0 (c1 ++ h0) h1')
    as (c2 & -> & Hc2); [by rewrite H2|].
  exists (c2 ++ c1). rewrite <- !app_assoc. split; [done|]. split; [|done].
  by apply within_session_closed.
Qed.

(** C6.  Once the browser is launched, every way out of [extract_html]
    passes through exactly one [driver.quit()], which is the last command
    of the call: on success the markup read just before is returned; when
    the filter option does not become clickable within its wait, the
    timeout reaches the caller after the session is closed.  With a bound
    on the clicks the call does end. *)
Theorem session_closed_exactly_once (fuel : nat) (url city : string)
    (max_clicks : option Z) (h : history) :
  (∀ h', final_history (extract_html browser page_source fuel url city max_clicks h)
         = Some h' →
     match browser h Launch with
     | None => ∃ cs, h' = Quit :: cs ++ Launch :: h ∧ within_session cs
     | Some _ => h' = Launch :: h
     end)
  ∧ (∀ markup h',
       extract_html browser page_source fuel url city max_clicks h = Returns markup h' →
       ∃ cs, h' = Quit :: PageSource :: cs ++ Launch :: h ∧ within_session cs
             ∧ markup = page_source (cs ++ Launch :: h))
  ∧ (accepted browser
       [SendKeys location_input city; Clear location_input;
        WaitVisible location_input 10; Get url; Launch] h →
     browser
       (SendKeys location_input city :: Clear location_input
        :: WaitVisible location_input 10 :: Get url :: Launch :: h)
       (WaitClickable (label_xpath city) 10) = Some TimeoutException →
     browser
       (WaitClickable (label_xpath city) 10
        :: SendKeys location_input city :: Clear location_input
        :: WaitVisible location_input 10 :: Get url :: Launch :: h)
       Quit = None →
     extract_html browser page_source fuel url city max_clicks h
     = Raises TimeoutException
         (Quit :: WaitClickable (label_xpath city) 10
          :: SendKeys location_input city :: Clear location_input
          :: WaitVisible location_input 10 :: Get url :: Launch :: h))
  ∧ (∀ n, max_clicks = Some n → (Z.to_nat n < fuel)%nat →
          extract_html browser page_source fuel url city max_clicks h ≠ Diverges).
Proof.
  repeat match goal with |- _ ∧ _ => split end.
  - intros h'. rewrite extract_html_unfold.
    destruct (browser h Launch); [by intros [= <-]|]. intros Hh.
    destruct (issues_try_finally within_session (λ cs, cs = [Quit])
                (λ cs, ∃ cs', cs = Quit :: cs' ∧ within_session cs')
                (after_launch browser page_source fuel url city max_clicks)
                (issue browser Quit))
      with (h := Launch :: h) (h' := h') as (cs & -> & cs' & -> & Hcs'); try done.
    + apply issues_after_launch_session.
    + by apply issues_issue.
    + intros a b Ha ->. by exists a.
    + by exists cs'.
  - intros markup h'. rewrite extract_html_unfold.
    destruct (browser h Launch); [done|]. unfold try_finally.
    destruct (after_launch browser page_source fuel url city max_clicks (Launch :: h))
      as [m h2|e h2|] eqn:Hb; unfold issue;
      [|destruct (browser h2 Quit); done|done].
    destruct (browser h2 Quit); [done|]. intros [= <- <-].
    apply after_launch_returns in Hb as (cs & -> & Hcs & ->). by exists cs.
  - simpl. intros (((((_ & HL) & HG) & HV) & HC) & HS) HW HQ.
    rewrite extract_html_unfold, HL.
    unfold try_finally, after_launch, first_screen, _set_location_filter,
      click_checkbox_by_label, try_except, mbind, action_bind, bind, issue.
    rewrite HG, HV, HC, HS, HW. cbv beta iota delta [raise]. by rewrite HQ.
  - intros n -> Hfuel. by apply terminates_extract_html.
Qed.

(** C9.  With a bound [n] on the clicks and fuel beyond it, the loop ends;
    it returns a counter between 0 and the bound (or lets through an
    exception that [except Exception] does not catch), having waited for
    the load-more control at most [n] times, and so does the whole call.
    When that control is not clickable after the first screen, the loop
    ends at once with the counter at 0 and the call returns the markup of
    the page as it then is. *)
Theorem load_loop_is_bounded (fuel : nat) (url city : string) (h : history) :
  (∀ n, (Z.to_nat n < fuel)%nat →
     ∃ h' cs, h' = cs ++ h ∧ at_most (Z.to_nat n) cs
       ∧ ((∃ final, show_more_loop browser fuel (Some n) 0 h = Returns final h'
                    ∧ 0 ≤ final ≤ Z.max 0 n)
          ∨ (∃ e, show_more_loop browser fuel (Some n) 0 h = Raises e h'
                  ∧ is_Exception e = false)))
  ∧ (∀ n, (Z.to_nat n < fuel)%nat →
     ∃ h' cs,
       final_history (extract_html browser page_source fuel url city (Some n) h)
       = Some h'
       ∧ h' = cs ++ h ∧ at_most (Z.to_nat n) cs)
  ∧ (∀ max_clicks h1,
       (0 < fuel)%nat →
       browser h Launch = None →
       first_screen browser url city (Launch :: h) = Returns tt h1 →
       browser h1 (WaitClickable show_more 40) = Some TimeoutException →
       let attempts :=
         if match max_clicks with None => true | Some m => 0 <? m end
         then [WaitClickable show_more 40] else [] in
       browser (attempts ++ h1) PageSource = None →
       browser (PageSource :: attempts ++ h1) Quit = None →
       show_more_loop browser fuel max_clicks 0 h1 = Returns 0 (attempts ++ h1)
       ∧ extract_html browser page_source fuel url city max_clicks h
         = Returns (page_source (attempts ++ h1))
             (Quit :: PageSource :: attempts ++ h1)).
Proof.
  repeat match goal with |- _ ∧ _ => split end.
  - intros n Hfuel.
    pose proof (terminates_loop fuel n 0) as Hterm.
    rewrite Z.sub_0_r in Hterm. specialize (Hterm Hfuel h).
    pose proof (issues_loop_attempts fuel n 0 h) as Hiss. rewrite Z.sub_0_r in Hiss.
    destruct (show_more_loop browser fuel (Some n) 0 h) as [final h'|e h'|] eqn:E;
      [| |done]; destruct (Hiss h' eq_refl) as (cs & -> & Hcs);
      exists (cs ++ h), cs; (split; [done|]); (split; [done|]).
    + left. exists final. split; [done|].
      apply loop_count in E as [Hle Hmax]. specialize (Hmax n eq_refl). lia.
    + right. exists e. split; [done|]. by eapply loop_raises.
  - intros n Hfuel.
    pose proof (terminates_extract_html fuel url city n Hfuel h) as Hterm.
    destruct (extract_html browser page_source fuel url city (Some n) h)
      as [m h'|e h'|] eqn:E; [| |done].
    all: assert (final_history
                   (extract_html browser page_source fuel url city (Some n) h)
                 = Some h') as Hh by (by rewrite E).
    all: rewrite extract_html_unfold in Hh.
    all: destruct (browser h Launch).
    all: try (injection Hh as <-; exists (Launch :: h), [Launch];
              split; [done|]; split; [done|]; apply at_most_mono_zero, at_most_other;
              discriminate).
    all: destruct (issues_try_finally (at_most (Z.to_nat n)) (at_most 0)
                     (at_most (Z.to_nat n))
                     (after_launch browser page_source fuel url city (Some n))
                     (issue browser Quit))
           with (h := Launch :: h) (h' := h') as (cs & -> & Hcs);
      [apply issues_after_launch_attempts
      |apply issues_issue, at_most_other; discriminate
      |intros a b Ha Hb; apply (at_most_app _ 0 a b Ha Hb)
      |done|].
    all: exists (cs ++ Launch :: h), (cs ++ [Launch]).
    all: split; [done|]; split; [by rewrite <- app_assoc|].
    all: pose proof (at_most_app _ _ [Launch] cs
                       (at_most_other Launch ltac:(discriminate)) Hcs) as H.
    all: by rewrite Nat.add_0_r in H.
  - intros max_clicks h1 Hfuel HL H1 HW attempts HP HQ.
    destruct fuel as [|fuel']; [lia|].
    pose proof (loop_exhausted fuel' max_clicks 0 h1 HW) as Hloop.
    fold attempts in Hloop. split; [done|].
    rewrite extract_html_unfold, HL.
    unfold try_finally, after_launch, mbind, action_bind, bind.
    rewrite H1, Hloop. unfold read_page_source, issue. by rewrite HP, HQ.
Qed.

End Session.

Lemma session_closed_exactly_once_witness :
  extract_html no_filter_option blank_page 1 "https://site.test/search" "Makati" None []
  = Raises TimeoutException
      [Quit; WaitClickable (label_xpath "Makati") 10;
       SendKeys location_input "Makati"; Clear location_input;
       WaitVisible location_input 10; Get "https://site.test/search"; Launch].
Proof.
  destruct (session_closed_exactly_once no_filter_option blank_page 1
              "https://site.test/search" "Makati" None []) as (_ & _ & Hfilter & _).
  apply Hfilter.
  - simpl. repeat split; reflexivity.
  - reflexivity.
  - reflexivity.
Defined.

(** A successful call: one quit, at the end. *)
Example extract_html_single_screen :
  extract_html single_screen blank_page 1 "https://site.test/search" "Makati" (Some 4) []
  = Returns "<html></html>"
      [Quit; PageSource; WaitClickable show_more 40;
       WaitClickable show_more_button_xpath 20;
       ExecuteScript js_click button_xpath; WaitClickable button_xpath 20;
       ExecuteScript js_click (label_xpath "Makati");
       WaitClickable (label_xpath "Makati") 10;
       SendKeys location_input "Makati"; Clear location_input;
       WaitVisible location_input 10; Get "https://site.test/search"; Launch].
Proof. reflexivity. Qed.

Lemma load_loop_is_bounded_witness :
  ∃ h1,
    show_more_loop single_screen 1 None 0 h1
    = Returns 0 (WaitClickable show_more 40 :: h1)
    ∧ extract_html single_screen blank_page 1 "https://site.test/search" "Makati" None []
      = Returns "<html></html>" (Quit :: PageSource :: WaitClickable show_more 40 :: h1).
Proof.
  destruct (load_loop_is_bounded single_screen blank_page 1
              "https://site.test/search" "Makati" []) as (_ & _ & Hsingle).
  eexists. apply (Hsingle None).
  - lia.
  - reflexivity.
  - reflexivity.
  - reflexivity.
  - reflexivity.
  - reflexivity.
Defined.

(** With a control that stays clickable, a bound of two gives two clicks. *)
Example loop_stops_at_bound :
  show_more_loop endless 3 (Some 2) 0 []
  = Returns 2
      [Click show_more; ExecuteScript scroll_into_view show_more;
       WaitClickable show_more 40;
       Click show_more; ExecuteScript scroll_into_view show_more;
       WaitClickable show_more 40].
Proof. reflexivity. Qed.

(** Without a bound the same browser exhausts any fuel. *)
Example loop_without_bound_goes_on (fuel : nat) :
  show_more_loop endless fuel None 0 [] = Diverges.
Proof.
  generalize 0. generalize (@nil command).
  induction fuel as [|fuel IH]; intros h c; [done|]. simpl.
  unfold mbind, action_bind, bind. apply IH.
Qed.

End SessionFacts.

(** ** The listing collector *)

Module CollectorFacts.
Import PyStr Soup Carousell ExtractorFacts.



(** Two cards, the second one nested deeper: two records, in that order. *)
Example extract_listings_sample :
  ∃ r1 r2,
    extract_listings (λ _, sample_document) "<html>...</html>"
    = Ok ("Houses for sale", DataFrame_of_records [r1; r2])
    ∧ r1 !! "size" = Some "120 sqm" ∧ r2 !! "bathrooms" = Some "2".
Proof. do 2 eexists. split; [reflexivity|]. split; reflexivity. Qed.

Example extract_listings_no_cards :
  extract_listings (λ _, Tag "[document]" ∅ None [Tag "div" ∅ None []]) "<div></div>"
  = Err (ValueError "No listings were found").
Proof. reflexivity. Qed.

End CollectorFacts.

(** ** The normalisation worker pool *)

Module ParserFacts.
Import PyStr PyStrFacts Parser.

Lemma pipe_app (a b : string) : a +:+ "|" +:+ b = a +:+ String "|" b.
Proof. reflexivity. Qed.

Lemma split_response_cut (a b : string) :
  contains "|" a = false → split_response (a +:+ String "|" b) = [a; b].
Proof.
  intros Ha. unfold split_response.
  assert (contains "|" (a +:+ String "|" b) = true) as ->.
  { apply contains_spec. by exists a, b. }
  by apply split_first.
Qed.

(** C2.  The response is cut at its first pipe only: the part before it is
    the building and everything after it, later pipes included, is the
    transaction type; a response without a pipe is the building, with an
    empty transaction type.  ([batch_parse] stores the first element in
    the column building and the second in trans_type.) *)
Theorem response_splits_on_first_pipe (s : string) :
  (contains "|" s = false → split_response s = [s; EmptyString])
  ∧ (∀ a b, s = a +:+ "|" +:+ b → contains "|" a = false →
            split_response s = [a; b])
  ∧ (contains "|" s = true →
     ∃ a b, s = a +:+ "|" +:+ b ∧ contains "|" a = false)
  ∧ split_response "|lease" = [EmptyString; "lease"].
Proof.
  repeat match goal with |- _ ∧ _ => split end.
  - intros H. unfold split_response. by rewrite H.
  - intros a b -> Ha. rewrite pipe_app. by apply split_response_cut.
  - intros H. by apply first_occurrence.
  - reflexivity.
Qed.

Example response_with_two_pipes :
  split_response "One|sale|rent" = ["One"; "sale|rent"].
Proof. reflexivity. Qed.

Example response_shang :
  split_response "Shang Salcedo Place|sale" = ["Shang Salcedo Place"; "sale"].
Proof. reflexivity. Qed.

Lemma split_response_pair (s : string) :
  ∃ building trans_type, split_response s = [building; trans_type].
Proof.
  destruct (contains "|" s) eqn:E.
  - destruct (first_occurrence _ _ E) as (a & b & -> & Ha).
    exists a, b. by apply split_response_cut.
  - exists s, EmptyString. unfold split_response. by rewrite E.
Qed.

(** *** The executor *)

Section ExecutorFacts.
Context {A B : Type}.
Variable fn : nat → A → B.
Variable iterable : list A.

Lemma complete_length (schedule : list nat) (served : nat) (futures : list (option B)) :
  length (complete fn iterable served schedule futures) = length futures.
Proof.
  revert served futures. induction schedule as [|j rest IH]; intros served futures; [done|].
  simpl. destruct (iterable !! j); rewrite IH; [apply length_insert | done].
Qed.

(** A task that is not scheduled leaves its future alone. *)
Lemma complete_other (schedule : list nat) (served : nat)
    (futures : list (option B)) (i : nat) :
  i ∉ schedule →
  complete fn iterable served schedule futures !! i = futures !! i.
Proof.
  revert served futures. induction schedule as [|j rest IH]; intros served futures Hi; [done|].
  apply not_elem_of_cons in Hi as [Hij Hi]. simpl.
  destruct (iterable !! j); rewrite IH by done; [|done].
  by apply list_lookup_insert_ne.
Qed.

(** The future of task [i] holds the result of the call that finished at
    the position of [i] in the schedule. *)
Lemma complete_scheduled (schedule : list nat) (served : nat)
    (futures : list (option B)) (k i : nat) (x : A) :
  NoDup schedule → (∀ j, j ∈ schedule → j < length iterable)%nat →
  length futures = length iterable →
  schedule !! k = Some i → iterable !! i = Some x →
  complete fn iterable served schedule futures !! i = Some (Some (fn (served + k)%nat x)).
Proof.
  revert served futures k.
  induction schedule as [|j rest IH]; intros served futures k Hnd Hlt Hlen Hk Hx; [done|].
  apply NoDup_cons in Hnd as [Hj Hnd]. simpl.
  destruct k as [|k]; simpl in Hk.
  - injection Hk as ->. rewrite Hx, complete_other by done.
    rewrite Nat.add_0_r. apply list_lookup_insert_eq.
    rewrite Hlen. by eapply lookup_lt_Some.
  - destruct (iterable !! j) as [y|] eqn:Hy.
    + rewrite (IH (S served) _ k); try done.
      * do 3 f_equal. lia.
      * intros j' Hj'. apply Hlt. by apply list_elem_of_further.
      * by rewrite length_insert.
    + apply lookup_ge_None in Hy.
      specialize (Hlt j (list_elem_of_here _ _)). lia.
Qed.

Lemma gather_filled (futures : list (option B)) :
  (∀ i, i < length futures → ∃ v, futures !! i = Some (Some v))%nat →
  ∃ vs, gather futures = Some vs ∧ futures = Some <$> vs.
Proof.
  induction futures as [|f rest IH]; intros Hall; [by exists []|].
  destruct (Hall 0%nat) as [v Hv]; [simpl; lia|]. simpl in Hv. injection Hv as ->.
  destruct IH as (vs & Hvs & ->).
  { intros i Hi. apply (Hall (S i)). simpl. lia. }
  exists (v :: vs). simpl. by rewrite Hvs.
Qed.

(** Whatever the order in which the calls finish, [executor.map]
    returns one result per input, in the order of the inputs. *)
Lemma executor_map_positional (schedule : list nat) :
  schedule ≡ₚ seq 0 (length iterable) →
  ∃ results, executor_map fn iterable schedule = Some results
    ∧ length results = length iterable
    ∧ ∀ i x, iterable !! i = Some x →
        ∃ k, schedule !! k = Some i ∧ results !! i = Some (fn k x).
Proof.
  intros Hperm.
  assert (NoDup schedule) as Hnd by (rewrite Hperm; apply NoDup_seq).
  assert (∀ j, j ∈ schedule → j < length iterable)%nat as Hlt.
  { intros j Hj. rewrite Hperm in Hj. apply elem_of_seq in Hj. lia. }
  set (futures := complete fn iterable 0 schedule (replicate (length iterable) None)).
  assert (length futures = length iterable) as Hlen.
  { unfold futures. by rewrite complete_length, length_replicate. }
  assert (∀ i x, iterable !! i = Some x →
            ∃ k, schedule !! k = Some i ∧ futures !! i = Some (Some (fn k x))) as Hfut.
  { intros i x Hx. assert (i ∈ schedule) as Hi.
    { rewrite Hperm. apply elem_of_seq. apply lookup_lt_Some in Hx. lia. }
    apply list_elem_of_lookup in Hi as [k Hk]. exists k. split; [done|].
    unfold futures. rewrite (complete_scheduled _ _ _ k i x); try done.
    by rewrite length_replicate. }
  destruct (gather_filled futures) as (vs & Hvs & Hfs).
  { intros i Hi. rewrite Hlen in Hi.
    destruct (lookup_lt_is_Some_2 iterable i Hi) as [x Hx].
    destruct (Hfut i x Hx) as (k & _ & Hk). by eexists. }
  exists vs. split; [done|]. split.
  - by rewrite <- Hlen, Hfs, length_fmap.
  - intros i x Hx. destruct (Hfut i x Hx) as (k & Hk & Hf). exists k. split; [done|].
    rewrite Hfs, list_lookup_fmap in Hf. destruct (vs !! i); by simplify_eq/=.
Qed.

End ExecutorFacts.

(** *** The merge *)

Lemma width_pairs (table : list (list string)) :
  table ≠ [] → (∀ row, row ∈ table → length row = 2%nat) → width table = 2%nat.
Proof.
  induction table as [|row rest IH]; intros Hne Hall; [done|]. simpl.
  rewrite (Hall row (list_elem_of_here _ _)).
  destruct rest as [|row' rest']; [done|].
  rewrite IH; [done|done|]. intros x Hx. apply Hall. by apply list_elem_of_further.
Qed.

Lemma split_response_length (s : string) : length (split_response s) = 2%nat.
Proof. by destruct (split_response_pair s) as (b & t & ->). Qed.

(** What [list(...)] gives when no call raised, and where its exception
    comes from when one did. *)
Lemma results_of_all_ok {B : Type} (outcomes : list (result B)) :
  (∀ i o, outcomes !! i = Some o → ∃ v, o = Ok v) →
  ∃ vs, results_of outcomes = Ok vs ∧ outcomes = Ok <$> vs.
Proof.
  induction outcomes as [|o rest IH]; intros Hall; [by exists []|].
  destruct (Hall 0%nat o eq_refl) as [v ->].
  destruct IH as (vs & Hvs & ->).
  { intros i o Ho. by apply (Hall (S i)). }
  exists (v :: vs). simpl. by rewrite Hvs.
Qed.



(** C5, as amended.  For a frame of N ≥ 1 records that has the text column,
    a positive bound on the workers, any order in which the N calls finish,
    and a backend that answers each of these calls, [batch_parse] returns N
    records, and the i-th is the i-th input record with building and
    trans_type set to the two parts of the response to the call made for
    that record; every other field of every record is as it was. *)
Theorem batch_parse_merges_by_position
    (model : nat → string → string → result string)
    (df : DataFrame) (text_column parse_description : string)
    (max_workers : Z) (schedule : list nat) :
  0 < max_workers → rows df ≠ [] → text_column ∈ columns df →
  schedule ≡ₚ seq 0 (length (rows df)) →
  (∀ k i r, schedule !! k = Some i → rows df !! i = Some r →
     ∃ response,
       model k (content_of (r !! text_column)) parse_description = Ok response) →
  ∃ out,
    batch_parse model df text_column parse_description max_workers schedule
    = Some (Ok out)
    ∧ length (rows out) = length (rows df)
    ∧ ∀ i r, rows df !! i = Some r →
        ∃ k response building trans_type r',
          schedule !! k = Some i
          ∧ model k (content_of (r !! text_column)) parse_description
            = Ok response
          ∧ split_response response = [building; trans_type]
          ∧ rows out !! i = Some r'
          ∧ r' = <["trans_type" := trans_type]> (<["building" := building]> r)
          ∧ r' !! "building" = Some building
          ∧ r' !! "trans_type" = Some trans_type
          ∧ ∀ key, key ≠ "building" → key ≠ "trans_type" → r' !! key = r !! key.
Proof.
  intros Hpos Hne Hcol Hperm Hanswers.
  unfold batch_parse, ThreadPoolExecutor, column.
  rewrite (proj2 (Z.leb_gt _ _) Hpos), decide_True by done.
  set (contents := (λ r : gmap string string, r !! text_column) <$> rows df).
  assert (length contents = length (rows df)) as Hclen by apply length_fmap.
  rewrite <- Hclen in Hperm.
  destruct (executor_map_positional
              (λ k c, parse_with_ollama model k (content_of c) parse_description)
              contents schedule Hperm) as (outcomes & -> & Holen & Houtcomes).
  assert (∀ i r, rows df !! i = Some r →
            ∃ k response,
              schedule !! k = Some i
              ∧ model k (content_of (r !! text_column)) parse_description
                = Ok response
              ∧ outcomes !! i = Some (Ok response)) as Hcalls.
  { intros i r Hr.
    assert (contents !! i = Some (r !! text_column)) as Hc.
    { unfold contents. by rewrite list_lookup_fmap, Hr. }
    destruct (Houtcomes _ _ Hc) as (k & Hk & Ho).
    destruct (Hanswers k i r Hk Hr) as [response Hresponse].
    exists k, response. do 2 (split; [done|]).
    unfold parse_with_ollama in Ho. by rewrite Hresponse in Ho. }
  destruct (results_of_all_ok outcomes) as (parsed & -> & Hparsed).
  { intros i o Ho.
    assert (i < length (rows df))%nat as Hi.
    { rewrite <- Hclen, <- Holen. by eapply lookup_lt_Some. }
    destruct (lookup_lt_is_Some_2 _ _ Hi) as [r Hr].
    destruct (Hcalls i r Hr) as (k & response & _ & _ & Ho'). exists response.
    congruence. }
  assert (length parsed = length (rows df)) as Hplen.
  { rewrite <- Hclen, <- Holen, Hparsed. by rewrite length_fmap. }
  unfold setitem_frame.
  rewrite decide_True by (rewrite length_fmap; congruence).
  rewrite decide_True.
  2:{ apply width_pairs.
      - destruct parsed; [|done]. destruct (rows df); [done|]. simpl in *. lia.
      - intros row (s & -> & _)%list_elem_of_fmap. apply split_response_length. }
  eexists. split; [done|]. simpl. split.
  { rewrite length_zip_with, length_fmap. lia. }
  intros i r Hr.
  destruct (Hcalls i r Hr) as (k & response & Hk & Hresponse & Ho).
  assert (parsed !! i = Some response) as Hp.
  { rewrite Hparsed, list_lookup_fmap in Ho.
    destruct (parsed !! i); by simplify_eq/=. }
  destruct (split_response_pair response) as (building & trans_type & Hsplit).
  exists k, response, building, trans_type. eexists.
  do 3 (split; [done|]). split.
  { rewrite lookup_zip_with, list_lookup_fmap, Hp, Hr. simpl.
    rewrite Hsplit. reflexivity. }
  split; [done|]. split; [|split].
  - by rewrite lookup_insert_ne, lookup_insert_eq.
  - by rewrite lookup_insert_eq.
  - intros key Hb Ht. by rewrite !lookup_insert_ne.
Qed.

Lemma batch_parse_merges_by_position_witness :
  ∃ out,
    batch_parse sample_model sample_frame "title" "the building" 5 [1%nat; 0%nat]
    = Some (Ok out)
    ∧ length (rows out) = 2%nat.
Proof.
  destruct (batch_parse_merges_by_position sample_model sample_frame "title"
              "the building" 5 [1%nat; 0%nat]) as (out & Hout & Hlen & _).
  - lia.
  - discriminate.
  - vm_compute. set_solver.
  - apply Permutation_swap.
  - intros k i r _ _. destruct k; by eexists.
  - exists out. split; [exact Hout | exact Hlen].
Defined.

(** The second call to finish was the one for the first record, and the
    first record gets its answer. *)
Example batch_parse_out_of_order :
  rows <$> (batch_parse sample_model sample_frame "title" "the building" 5
              [1%nat; 0%nat] ≫= λ r, match r with Ok out => Some out | Err _ => None end)
  = Some [ <["trans_type" := "later"]>
             (<["building" := "Ayala Triangle Tower for lease"]>
                {[ "title" := "Ayala Triangle Tower for lease" ]});
           <["trans_type" := "first"]>
             (<["building" := "The Rise 3BR for rent"]>
                {[ "title" := "The Rise 3BR for rent" ]}) ].
Proof. reflexivity. Qed.

(** C5, as stated, fails: a bound of zero workers is refused, and no record
    comes back. *)
Lemma batch_parse_zero_workers :
  rows sample_frame ≠ []
  ∧ batch_parse sample_model sample_frame "title" "the building" 0 [0%nat; 1%nat]
    = Some (Err (ValueError "max_workers must be greater than 0")).
Proof. split; [discriminate | reflexivity]. Qed.

(** The empty frame: the table of parts has no columns, and the assignment
    to two keys is refused. *)
Example batch_parse_empty_frame :
  batch_parse sample_model {| columns := {[ "title" ]}; rows := [] |} "title"
    "the building" 5 []
  = Some (Err (ValueError "Columns must be same length as key")).
Proof. reflexivity. Qed.

(** A backend call that raises: no frame comes back, whatever the other
    calls answered. *)
Example batch_parse_backend_raises :
  batch_parse failing_model sample_frame "title" "the building" 5 [0%nat; 1%nat]
  = Some (Err (ValueError "Ollama call failed with status code 500")).
Proof. reflexivity. Qed.

End ParserFacts.

(** * Further properties *)

(** ** The field extractor, field by field *)

Module ExtractorMore.
Import PyStr PyStrFacts Soup SoupFacts Carousell ExtractorFacts Vocabulary.

Lemma strip_empty : strip EmptyString = EmptyString.
Proof. reflexivity. Qed.

Lemma first_p_text_first (title : string) (before after : list located)
    (p : located) :
  (∀ q, q ∈ before → strip (text (elt q)) = EmptyString) →
  strip (text (elt p)) ≠ EmptyString →
  first_p_text title (before ++ p :: after) = strip (text (elt p)).
Proof.
  intros Hbefore Hp. induction before as [|x rest IH]; cbn [first_p_text app].
  - destruct (text (elt p)) as [|c t] eqn:Et; [done|].
    destruct (strip (String c t)); done.
  - rewrite (Hbefore x (list_elem_of_here _ _)).
    cbn [String.length Nat.ltb Nat.leb]. rewrite andb_false_r.
    apply IH. intros q Hq. apply Hbefore. by apply list_elem_of_further.
Qed.

(** X1.  The title is the title attribute of the first paragraph that has
    one, even an empty one; only when no paragraph has the attribute is it
    the trimmed text of the first paragraph whose trimmed text is not
    empty.  No case raises. *)
Theorem title_prefers_attribute_then_text (listing : node) :
  ∃ title r,
    extract_title listing = Ok title
    ∧ extract_from_card listing = Ok r ∧ r !! "title" = Some title
    ∧ (∀ title_tag,
         find listing (ByName "p" [("title", Present)] None) = Some title_tag →
         get (elt title_tag) "title" = Some title)
    ∧ (find listing (ByName "p" [("title", Present)] None) = None →
       ∀ before p after,
         find_all listing (ByName "p" [] None) = before ++ p :: after →
         (∀ q, q ∈ before → strip (text (elt q)) = EmptyString) →
         strip (text (elt p)) ≠ EmptyString →
         title = strip (text (elt p))).
Proof.
  destruct (extract_from_card_Ok listing)
    as (title & price & feats & image_url & link & seller & r & Ht & _ & _ & _ & _ & _
        & Hr & _ & Hrt & _).
  exists title, r. do 3 (split; [done|]). unfold extract_title in Ht. split.
  - intros title_tag E. rewrite E in Ht. unfold getitem in Ht.
    destruct (get (elt title_tag) "title"); by simplify_eq.
  - intros E before p after Hps Hbefore Hp. rewrite E, Hps in Ht.
    rewrite first_p_text_first in Ht by done. by injection Ht.
Qed.

(** A paragraph with an empty title attribute hides the text of all. *)
Example empty_title_attribute_wins :
  extract_title
    (Tag "div" ∅ None
       [Tag "p" ∅ None [NavigableString "2BR condo"];
        Tag "p" {[ "title" := "" ]} None [NavigableString "Salcedo"]])
  = Ok EmptyString.
Proof. reflexivity. Qed.

(** *** The feature loop as a whole *)

Lemma classify_feature_read (st st' : features) (span : located) (f : field) :
  classify_feature st span = Ok st' →
  read f st'
  = default (read f st)
      (if decide (destination span = Some f) then get (elt span) "title" else None).
Proof.
  unfold classify_feature, getitem, destination.
  destruct (get (elt span) "title") as [v|]; [simpl|done].
  destruct (contains "sqm" v); [|destruct (isdigit v);
    [destruct (has_icon _ "ic_bed.svg"); [|destruct (has_icon _ "ic_bath.svg")]|]];
    intros [= <-]; by destruct f.
Qed.

Lemma default_last_cons (d v : string) (l : list string) :
  default d (last (v :: l)) = default v (last l).
Proof. rewrite last_cons. by destruct (last l). Qed.

Lemma scan_features_read (st st' : features) (spans : list located) (f : field) :
  scan_features st spans = Ok st' →
  read f st' = default (read f st) (last (values_for f spans)).
Proof.
  revert st. induction spans as [|x rest IH]; intros st; simpl.
  - by intros [= <-].
  - destruct (classify_feature st x) as [st1|] eqn:E; [simpl|done].
    intros H. rewrite (IH st1 H), (classify_feature_read _ _ _ f E).
    unfold values_for. cbn [omap list_omap].
    destruct (decide (destination x = Some f)); [|done].
    destruct (get (elt x) "title") as [v|]; [|done].
    simpl. by rewrite default_last_cons.
Qed.

(** X2.  The feature loop keeps, for each of bedrooms, bathrooms, size and
    remarks, the value of the last span of the features region that is
    stored in it, and the empty string when there is none: the four
    variables do not interfere, and a later value replaces an earlier one
    of the same kind. *)
Theorem feature_loop_keeps_last_of_each (listing : node) (features_div : located) :
  features_region listing = Some features_div →
  ∃ st r,
    extract_features listing = Ok st ∧ extract_from_card listing = Ok r
    ∧ (∀ f, read f st
            = default EmptyString
                (last (values_for f (feature_spans (elt features_div)))))
    ∧ r !! "bedrooms" = Some (read Bedrooms st)
    ∧ r !! "bathrooms" = Some (read Bathrooms st)
    ∧ r !! "size" = Some (read Size st)
    ∧ r !! "remarks" = Some (read Remarks st).
Proof.
  intros Hreg.
  destruct (extract_from_card_Ok listing)
    as (title & price & feats & image_url & link & seller & r & _ & _ & Hf & _ & _ & _
        & Hr & _ & _ & _ & Hbed & Hbath & Hsize & _ & Hrem & _).
  exists feats, r. do 2 (split; [done|]). split; [|done].
  intros f. unfold extract_features in Hf. rewrite Hreg in Hf.
  rewrite (scan_features_read _ _ _ f Hf). by destruct f.
Qed.

Lemma feature_loop_keeps_last_of_each_witness :
  ∃ r,
    extract_from_card
      (card [span_title "Studio"; span_title "30 sqm"; span_title "Furnished";
             span_title "45 sqm"]) = Ok r
    ∧ r !! "size" = Some "45 sqm" ∧ r !! "remarks" = Some "Furnished".
Proof.
  pose (box := [span_title "Studio"; span_title "30 sqm"; span_title "Furnished";
                span_title "45 sqm"]).
  destruct (feature_loop_keeps_last_of_each (card box) (Located (features_box box) []))
    as (st & r & _ & Hr & Hst & _ & _ & Hsize & Hrem); [reflexivity|].
  exists r. split; [exact Hr|].
  rewrite Hsize, Hrem, (Hst Size), (Hst Remarks). split; reflexivity.
Defined.

(** *** Icons *)

Lemma find_previous_sibling_nearest (span : located) (nm : string)
    (skipped rest : list node) (sibling : node) :
  prev_siblings span = skipped ++ sibling :: rest →
  (∀ s, s ∈ skipped → name s ≠ Some nm) → name sibling = Some nm →
  find_previous_sibling span nm = Some sibling.
Proof.
  intros Hprev Hskipped Hsibling. unfold find_previous_sibling. rewrite Hprev.
  clear Hprev. induction skipped as [|x skipped IH]; simpl.
  - by rewrite filter_cons_True.
  - rewrite filter_cons_False by (apply Hskipped, list_elem_of_here).
    apply IH. intros s Hs. apply Hskipped. by apply list_elem_of_further.
Qed.

(** X3.  For a numeric feature value the nearest preceding sibling that is
    an [img] decides, whatever lies between the two and whatever icons come
    earlier: a source with the bed icon makes the value the bedrooms, else a
    source with the bath icon makes it the bathrooms, else the value is
    dropped. *)
Theorem nearest_icon_decides (st : features) (span : located) (v : string)
    (skipped rest : list node) (img : node) :
  getitem (elt span) "title" = Ok v → isdigit v = true →
  prev_siblings span = skipped ++ img :: rest →
  (∀ s, s ∈ skipped → name s ≠ Some "img") → name img = Some "img" →
  classify_feature st span
  = Ok (if contains "ic_bed.svg" (get_default img "src" "")
        then Features v (bathrooms st) (size st) (remarks st)
        else if contains "ic_bath.svg" (get_default img "src" "")
        then Features (bedrooms st) v (size st) (remarks st)
        else st).
Proof.
  intros Hv Hd Hprev Hskipped Himg. unfold classify_feature. rewrite Hv. simpl.
  rewrite (isdigit_not_sqm _ Hd), Hd.
  rewrite (find_previous_sibling_nearest span "img" skipped rest img) by done.
  unfold has_icon. by repeat case_match.
Qed.

Lemma nearest_icon_decides_witness :
  classify_feature no_features
    (Located (span_title "2")
       [NavigableString " "; icon "ic_bath.svg"; span_title "3"; icon "ic_bed.svg"])
  = Ok (Features EmptyString "2" EmptyString EmptyString).
Proof.
  apply (nearest_icon_decides no_features _ "2" [NavigableString " "]
           [span_title "3"; icon "ic_bed.svg"] (icon "ic_bath.svg")).
  - reflexivity.
  - reflexivity.
  - reflexivity.
  - intros s Hs. apply list_elem_of_singleton in Hs as ->. discriminate.
  - reflexivity.
Defined.

(** A picture that is no icon, between the bed icon and the value, makes
    the loop drop the value. *)
Example other_image_hides_icon :
  extract_features
    (card [icon "ic_bed.svg"; icon "verified.png"; span_title "3"])
  = Ok no_features.
Proof. reflexivity. Qed.

(** *** Links *)

Lemma find_narrower (n : node) (c1 c2 : criteria) (d : located) :
  find n c1 = Some d → matches c2 (elt d) = true →
  (∀ x, matches c2 x = true → matches c1 x = true) →
  find n c2 = Some d.
Proof.
  unfold find, find_all. intros Hd H2 Hsub.
  induction (descendants n) as [|x l IH]; [done|].
  destruct (decide (matches c1 (elt x) = true)) as [H1|H1].
  - rewrite filter_cons_True in Hd by done. injection Hd as ->.
    by rewrite filter_cons_True.
  - rewrite filter_cons_False in Hd by done.
    rewrite filter_cons_False by (intros Hx; by apply H1, Hsub). by apply IH.
Qed.

Lemma profile_link_matches (n : node) :
  matches profile_link n = true
  ↔ matches any_link n = true
    ∧ ∃ href, get n "href" = Some href ∧ contains "/u/" href = true.
Proof.
  destruct n as [nm a cls ch| |]; simpl;
    [|split; [done | by intros [? _]]..].
  rewrite !andb_true_r.
  destruct (bool_decide (nm = "a")); simpl; [|split; [done | by intros [? _]]].
  destruct (a !! "href") as [href|]; simpl; [|split; [done | by intros [? _]]].
  rewrite orb_false_r. split.
  - intros [_ H]%andb_true_iff. split; [done|]. by exists href.
  - intros (_ & href' & [= <-] & H). rewrite H, andb_true_r.
    destruct href; [done|done].
Qed.

Lemma origin_not_empty (href : string) : site_origin +:+ href ≠ EmptyString.
Proof. done. Qed.

(** X4.  The listing URL and the seller profile are the site origin
    followed by the target of the first hyperlink, and of the first
    hyperlink whose target has the user-profile segment; a record with a
    seller profile has a listing URL; and when the first hyperlink of the
    card is itself a profile link, the two fields are the same URL. *)
Theorem links_are_absolute (listing : node) :
  ∃ r link seller,
    extract_from_card listing = Ok r
    ∧ r !! "listing_url" = Some link ∧ r !! "seller_profile" = Some seller
    ∧ (∀ link_tag, find listing any_link = Some link_tag →
         ∃ href, get (elt link_tag) "href" = Some href
                 ∧ link = site_origin +:+ href)
    ∧ (∀ seller_tag, find listing profile_link = Some seller_tag →
         ∃ href, get (elt seller_tag) "href" = Some href
                 ∧ contains "/u/" href = true
                 ∧ seller = site_origin +:+ href)
    ∧ (seller ≠ EmptyString → link ≠ EmptyString)
    ∧ (∀ link_tag href,
         find listing any_link = Some link_tag →
         get (elt link_tag) "href" = Some href →
         contains "/u/" href = true → seller = link).
Proof.
  destruct (extract_from_card_Ok listing)
    as (title & price & feats & image_url & link & seller & r
        & _ & _ & _ & _ & Hl & Hs & Hr & _
        & _ & _ & _ & _ & _ & _ & _ & _ & Hrl & Hrs & _).
  exists r, link, seller. do 3 (split; [done|]).
  unfold extract_link in Hl. unfold extract_seller_profile in Hs.
  fold any_link in Hl. fold profile_link in Hs.
  assert (∀ link_tag, find listing any_link = Some link_tag →
            ∃ href, get (elt link_tag) "href" = Some href
                    ∧ link = site_origin +:+ href) as Hlink.
  { intros link_tag E. rewrite E in Hl. unfold getitem in Hl.
    destruct (get (elt link_tag) "href") as [href|]; [|done].
    exists href. split; [done|]. by injection Hl. }
  assert (∀ seller_tag, find listing profile_link = Some seller_tag →
            ∃ href, get (elt seller_tag) "href" = Some href
                    ∧ contains "/u/" href = true
                    ∧ seller = site_origin +:+ href) as Hseller.
  { intros seller_tag E. rewrite E in Hs.
    apply find_Some in E as [(_ & href & Hh & Hu)%profile_link_matches _].
    unfold getitem in Hs. rewrite Hh in Hs. exists href.
    do 2 (split; [done|]). by injection Hs. }
  repeat match goal with |- _ ∧ _ => split end; [done|done| |].
  - intros Hne. destruct (find listing profile_link) as [d|] eqn:E.
    + apply find_Some in E as [[Hm _]%profile_link_matches Hd].
      destruct (find listing any_link) as [d'|] eqn:E'.
      * destruct (Hlink d' eq_refl) as (href & _ & ->). apply origin_not_empty.
      * apply find_None in E'.
        assert (d ∈ find_all listing any_link) as Hin by by apply find_all_elem.
        rewrite E' in Hin. by apply elem_of_nil in Hin.
    + by injection Hs as <-.
  - intros link_tag href E Hh Hu.
    assert (find listing profile_link = Some link_tag) as E'.
    { apply (find_narrower listing any_link); [done| |].
      - apply profile_link_matches. split; [by apply find_Some in E as [? _]|].
        by exists href.
      - by intros x [? _]%profile_link_matches. }
    destruct (Hlink _ E) as (h1 & Hh1 & ->), (Hseller _ E') as (h2 & Hh2 & _ & ->).
    congruence.
Qed.

(** The seller's link comes first in this card, and is taken for the
    listing as well. *)
Example profile_link_first :
  ∃ r,
    extract_from_card
      (Tag "div" ∅ None
         [Tag "a" {[ "href" := "/u/anna/" ]} None [];
          Tag "a" {[ "href" := "/p/condo-123/" ]} None []]) = Ok r
    ∧ r !! "listing_url" = Some "https://www.carousell.ph/u/anna/"
    ∧ r !! "seller_profile" = Some "https://www.carousell.ph/u/anna/".
Proof. eexists. split; [reflexivity|]. split; reflexivity. Qed.

End ExtractorMore.

(** ** The page materialiser, step by step *)

Module SessionMore.
Import Carousell SessionFacts Vocabulary.

Ltac newest := eexists _, _; split; [reflexivity | eassumption].

Ltac outcome :=
  first
    [ done
    | split; [reflexivity | newest]
    | split; [discriminate | newest]
    | newest
    | eexists; split; [|newest]; reflexivity
    | left; simpl; by repeat split
    | right; simpl; by repeat split
    | right; simpl; repeat split; auto; newest
    | right; newest ].

Section Steps.
Variable browser : history → command → option exn.
Variable page_source : history → string.

Ltac browse :=
  repeat match goal with
         | |- context [browser ?h ?c] =>
             let E := fresh "E" in destruct (browser h c) as [[]|] eqn:E; simpl
         end.

(** X5.  An attempt on the load-more control answers [True] only when the
    control was clicked, by the direct click or, after that click was
    intercepted or found not interactable, by the scripted one.  It answers
    [False] only after one of its commands raised an [Exception], that
    command being the last it sent; it lets through only what
    [except Exception] does not catch. *)
Theorem click_show_more_outcomes (h : history) :
  match _click_show_more browser h with
  | Returns true h' =>
      (h' = Click show_more :: ExecuteScript scroll_into_view show_more
            :: WaitClickable show_more 40 :: h
       ∧ accepted browser
           [Click show_more; ExecuteScript scroll_into_view show_more;
            WaitClickable show_more 40] h)
      ∨ (h' = ExecuteScript js_click show_more :: Click show_more
              :: ExecuteScript scroll_into_view show_more
              :: WaitClickable show_more 40 :: h
         ∧ accepted browser
             [ExecuteScript scroll_into_view show_more; WaitClickable show_more 40] h
         ∧ (browser
              (ExecuteScript scroll_into_view show_more
               :: WaitClickable show_more 40 :: h) (Click show_more)
            = Some ElementClickInterceptedException
            ∨ browser
                (ExecuteScript scroll_into_view show_more
                 :: WaitClickable show_more 40 :: h) (Click show_more)
              = Some ElementNotInteractableException)
         ∧ browser
             (Click show_more :: ExecuteScript scroll_into_view show_more
              :: WaitClickable show_more 40 :: h)
             (ExecuteScript js_click show_more) = None)
  | Returns false h' => ∃ e, is_Exception e = true ∧ newest_raised browser e h'
  | Raises e h' => is_Exception e = false ∧ newest_raised browser e h'
  | Diverges => False
  end.
Proof.
  unfold _click_show_more, try_except, mbind, action_bind, bind, issue, ret,
    newest_raised.
  browse; outcome.
Qed.

(** X6.  [_click_search_button] absorbs a timeout of any of its two waits
    and returns as if the search had started: when the Search button itself
    never becomes clickable it returns without having clicked anything.
    Every other exception reaches the caller unchanged. *)
Theorem click_search_button_outcomes (h : history) :
  match _click_search_button browser h with
  | Returns _ h' =>
      (h' = WaitClickable show_more_button_xpath 20
            :: ExecuteScript js_click button_xpath
            :: WaitClickable button_xpath 20 :: h
       ∧ accepted browser
           [WaitClickable show_more_button_xpath 20;
            ExecuteScript js_click button_xpath; WaitClickable button_xpath 20] h)
      ∨ newest_raised browser TimeoutException h'
  | Raises e h' => e ≠ TimeoutException ∧ newest_raised browser e h'
  | Diverges => False
  end
  ∧ (browser h (WaitClickable button_xpath 20) = Some TimeoutException →
     _click_search_button browser h
     = Returns tt (WaitClickable button_xpath 20 :: h)).
Proof.
  split.
  - unfold _click_search_button, try_except, mbind, action_bind, bind, issue, ret,
      newest_raised.
    browse; outcome.
  - intros H.
    unfold _click_search_button, try_except, mbind, action_bind, bind, issue.
    by rewrite H.
Qed.

(** X7.  [_set_location_filter] returns only when its five commands all
    succeeded: the wait for the input, the clearing, the typing, the wait
    for the option and the scripted click on it.  Otherwise the exception
    of the first command that failed reaches the caller as it is, timeout
    or not, and nothing is sent after it. *)
Theorem set_location_filter_outcomes (location : string) (h : history) :
  match _set_location_filter browser location h with
  | Returns _ h' =>
      h' = ExecuteScript js_click (label_xpath location)
           :: WaitClickable (label_xpath location) 10
           :: SendKeys location_input location :: Clear location_input
           :: WaitVisible location_input 10 :: h
      ∧ accepted browser
          [ExecuteScript js_click (label_xpath location);
           WaitClickable (label_xpath location) 10;
           SendKeys location_input location; Clear location_input;
           WaitVisible location_input 10] h
  | Raises e h' => newest_raised browser e h'
  | Diverges => False
  end.
Proof.
  unfold _set_location_filter, click_checkbox_by_label, try_except, mbind,
    action_bind, bind, issue, raise, newest_raised.
  browse; first [newest | simpl; by repeat split].
Qed.

(** *** The loop, counted *)

Lemma load_attempts_wait : load_attempts [WaitClickable show_more 40] = 1%nat.
Proof. reflexivity. Qed.

Lemma load_attempts_other (c : command) :
  c ≠ WaitClickable show_more 40 → load_attempts [c] = 0%nat.
Proof. intros Hc. unfold load_attempts. by rewrite filter_cons_False. Qed.

(** Every attempt waits for the control once. *)
Lemma click_show_more_waits_once (h h' : history) :
  final_history (_click_show_more browser h) = Some h' →
  ∃ cs, h' = cs ++ h ∧ load_attempts cs = 1%nat.
Proof.
  apply (issues_try_except (λ cs, load_attempts cs = 1%nat)
           (λ cs, load_attempts cs = 0%nat) (λ cs, load_attempts cs = 1%nat)).
  - apply (issues_bind (λ cs, load_attempts cs = 1%nat)
             (λ cs, load_attempts cs = 0%nat)); [|intros _|done|].
    + by apply issues_issue.
    + apply (issues_bind (λ cs, load_attempts cs = 0%nat)
               (λ cs, load_attempts cs = 0%nat)); [|intros _|done|].
      * by apply issues_issue.
      * apply (issues_bind (λ cs, load_attempts cs = 0%nat)
                 (λ cs, load_attempts cs = 0%nat)); [|intros _|done|].
        -- apply (issues_try_except (λ cs, load_attempts cs = 0%nat)
                    (λ cs, load_attempts cs = 0%nat)); [| |done|].
           ++ by apply issues_issue.
           ++ intros e k Hk. destruct e; simplify_eq/=; by apply issues_issue.
           ++ intros a b Ha Hb. rewrite load_attempts_app. lia.
        -- by apply issues_ret.
        -- intros a b Ha Hb. rewrite load_attempts_app. lia.
      * intros a b Ha Hb. rewrite load_attempts_app. lia.
    + intros a b Ha Hb. rewrite load_attempts_app. lia.
  - intros e k Hk. destruct e; simplify_eq/=; by apply issues_ret.
  - done.
  - intros a b Ha Hb. rewrite load_attempts_app. lia.
Qed.

(** X8.  When the loop returns, the counter has not gone down, and the
    control was waited for once per click counted, plus once more when it
    was a failed attempt, not the bound, that ended the loop. *)
Theorem loop_waits_once_per_click (fuel : nat) (max_clicks : option Z)
    (click_count final : Z) (h h' : history) :
  show_more_loop browser fuel max_clicks click_count h = Returns final h' →
  click_count ≤ final
  ∧ ∃ cs, h' = cs ++ h
      ∧ load_attempts cs
        = (Z.to_nat (final - click_count)
           + if stopped_by_bound max_clicks final then 0 else 1)%nat.
Proof.
  revert click_count h. induction fuel as [|fuel IH]; intros click_count h; [done|].
  simpl.
  destruct (match max_clicks with None => true | Some m => click_count <? m end) eqn:E.
  - unfold mbind, action_bind, bind.
    destruct (_click_show_more browser h) as [[|] h1|e h1|] eqn:E1; [| |done..].
    + destruct (click_show_more_waits_once h h1) as (c1 & -> & Hc1); [by rewrite E1|].
      intros (Hle & c2 & -> & Hc2)%IH. split; [lia|].
      exists (c2 ++ c1). split; [by rewrite app_assoc|].
      rewrite load_attempts_app, Hc1, Hc2. lia.
    + destruct (click_show_more_waits_once h h1) as (c1 & -> & Hc1); [by rewrite E1|].
      intros [= <- <-]. split; [lia|]. exists c1. split; [done|].
      rewrite Hc1, Z.sub_diag. unfold stopped_by_bound.
      destruct max_clicks as [m|]; [|done].
      apply Z.ltb_lt in E. rewrite bool_decide_eq_false_2 by lia. done.
  - intros [= <- <-]. split; [lia|]. exists []. split; [done|].
    destruct max_clicks as [m|]; [|done]. apply Z.ltb_ge in E.
    unfold stopped_by_bound. rewrite bool_decide_eq_true_2 by lia.
    by rewrite Z.sub_diag.
Qed.

(** *** No bound, no end *)

Lemma click_show_more_clicks (h : history) :
  (∀ g c, browser g c = None) →
  _click_show_more browser h
  = Returns true
      (Click show_more :: ExecuteScript scroll_into_view show_more
       :: WaitClickable show_more 40 :: h).
Proof.
  intros Hok. unfold _click_show_more, try_except, mbind, action_bind, bind, issue.
  by rewrite !Hok.
Qed.

Lemma first_screen_loads (url city : string) (h : history) :
  (∀ g c, browser g c = None) →
  ∃ h1, first_screen browser url city h = Returns tt h1.
Proof.
  intros Hok. eexists.
  unfold first_screen, _set_location_filter, _click_search_button,
    click_checkbox_by_label, try_except, mbind, action_bind, bind, issue.
  rewrite !Hok. reflexivity.
Qed.

(** X9.  Called without a bound on the clicks, as the script calls it,
    [extract_html] does not end on a page whose load-more control is
    clickable every time: whatever the fuel, the loop is still running when
    it is spent, so no markup is returned and the session is not closed. *)
Theorem unbounded_loop_does_not_end (fuel : nat) (url city : string) (h : history) :
  (∀ g c, browser g c = None) →
  (∀ click_count, show_more_loop browser fuel None click_count h = Diverges)
  ∧ extract_html browser page_source fuel url city None h = Diverges.
Proof.
  intros Hok.
  assert (∀ g click_count, show_more_loop browser fuel None click_count g = Diverges)
    as Hloop.
  { induction fuel as [|n IH]; intros g click_count; [done|]. simpl.
    unfold mbind, action_bind, bind. rewrite click_show_more_clicks by done.
    apply IH. }
  split; [intros click_count; apply Hloop|].
  rewrite extract_html_unfold, Hok.
  destruct (first_screen_loads url city (Launch :: h) Hok) as [h1 H1].
  unfold try_finally, after_launch, mbind, action_bind, bind.
  by rewrite H1, Hloop.
Qed.

(** *** Markup only after the filter *)

Ltac cut_history :=
  first
    [ exists []; split; [reflexivity|]
    | match goal with
      | |- ∃ cs, ?a :: _ = _ ∧ _ => exists [a]; split; [reflexivity|]
      end
    | match goal with
      | |- ∃ cs, ?a :: ?b :: _ = _ ∧ _ => exists [a; b]; split; [reflexivity|]
      end
    | match goal with
      | |- ∃ cs, ?a :: ?b :: ?c :: _ = _ ∧ _ =>
          exists [a; b; c]; split; [reflexivity|]
      end ].

Lemma first_screen_returns (url city : string) (h0 h1 : history) :
  first_screen browser url city h0 = Returns tt h1 →
  ∃ cs,
    h1 = cs ++ [ExecuteScript js_click (label_xpath city);
                WaitClickable (label_xpath city) 10;
                SendKeys location_input city; Clear location_input;
                WaitVisible location_input 10; Get url] ++ h0
    ∧ accepted browser
        [ExecuteScript js_click (label_xpath city);
         WaitClickable (label_xpath city) 10;
         SendKeys location_input city; Clear location_input;
         WaitVisible location_input 10; Get url] h0.
Proof.
  intros H.
  unfold first_screen, _set_location_filter, _click_search_button,
    click_checkbox_by_label, try_except, mbind, action_bind, bind, issue, raise, ret
    in H.
  repeat match type of H with
         | context [browser ?g ?c] =>
             let E := fresh "E" in
             destruct (browser g c) as [[]|] eqn:E;
             cbv beta iota in H; try discriminate H
         end.
  all: injection H as <-; cut_history; cbn [accepted app]; by repeat split.
Qed.

(** X18.  [extract_html] returns markup only from a session that began
    with these steps, each accepted by the browser and nothing done in
    between: the browser launched, the URL loaded, the location typed into
    the input and the matching option clicked.  The click on Search is not
    among them: [_click_search_button] absorbs its timeout, so the markup
    returned may be that of a page on which the search was never run. *)
Theorem markup_only_after_filter (fuel : nat) (url city : string)
    (max_clicks : option Z) (h h' : history) (markup : string) :
  extract_html browser page_source fuel url city max_clicks h = Returns markup h' →
  ∃ cs,
    h' = cs ++ [ExecuteScript js_click (label_xpath city);
                WaitClickable (label_xpath city) 10;
                SendKeys location_input city; Clear location_input;
                WaitVisible location_input 10; Get url; Launch] ++ h
    ∧ accepted browser
        [ExecuteScript js_click (label_xpath city);
         WaitClickable (label_xpath city) 10;
         SendKeys location_input city; Clear location_input;
         WaitVisible location_input 10; Get url; Launch] h.
Proof.
  rewrite extract_html_unfold. destruct (browser h Launch) eqn:EL; [done|].
  unfold try_finally.
  destruct (after_launch browser page_source fuel url city max_clicks (Launch :: h))
    as [m h2|e h2|] eqn:Hb; unfold issue;
    [|destruct (browser h2 Quit); done|done].
  destruct (browser h2 Quit); [done|]. intros [= <- <-].
  unfold after_launch, mbind, action_bind, bind in Hb.
  destruct (first_screen browser url city (Launch :: h)) as [[] h1|e h1|] eqn:H1;
    [|done..].
  apply first_screen_returns in H1 as (c1 & -> & Hacc).
  destruct (show_more_loop browser fuel max_clicks 0 _) as [c h3|e h3|] eqn:H2;
    [|done..].
  match type of H2 with
  | show_more_loop _ _ _ _ ?g = _ =>
      destruct (issues_loop_session browser fuel max_clicks 0 g h3)
        as (c2 & -> & _); [by rewrite H2|]
  end.
  unfold read_page_source in Hb. destruct (browser _ PageSource); [done|].
  injection Hb as <- <-.
  exists (Quit :: PageSource :: c2 ++ c1). split.
  - simpl. by rewrite <- !app_assoc.
  - simpl in *. tauto.
Qed.

End Steps.

Lemma loop_waits_once_per_click_witness :
  (0 ≤ 2)
  ∧ ∃ cs,
      [Click show_more; ExecuteScript scroll_into_view show_more;
       WaitClickable show_more 40;
       Click show_more; ExecuteScript scroll_into_view show_more;
       WaitClickable show_more 40] = cs ++ []
      ∧ load_attempts cs = 2%nat.
Proof.
  apply (loop_waits_once_per_click endless 3 (Some 2) 0 2 []). reflexivity.
Defined.

Lemma unbounded_loop_does_not_end_witness :
  extract_html endless blank_page 1000 "https://site.test/search" "Makati" None []
  = Diverges.
Proof.
  apply (unbounded_loop_does_not_end endless blank_page 1000
           "https://site.test/search" "Makati" []).
  reflexivity.
Defined.

Lemma markup_only_after_filter_witness :
  ∃ cs,
    [Quit; PageSource; WaitClickable show_more 40;
     WaitClickable show_more_button_xpath 20;
     ExecuteScript js_click button_xpath; WaitClickable button_xpath 20;
     ExecuteScript js_click (label_xpath "Makati");
     WaitClickable (label_xpath "Makati") 10;
     SendKeys location_input "Makati"; Clear location_input;
     WaitVisible location_input 10; Get "https://site.test/search"; Launch]
    = cs ++ [ExecuteScript js_click (label_xpath "Makati");
             WaitClickable (label_xpath "Makati") 10;
             SendKeys location_input "Makati"; Clear location_input;
             WaitVisible location_input 10; Get "https://site.test/search"; Launch]
         ++ [].
Proof.
  destruct (markup_only_after_filter single_screen blank_page 1
              "https://site.test/search" "Makati" (Some 4) []
              [Quit; PageSource; WaitClickable show_more 40;
               WaitClickable show_more_button_xpath 20;
               ExecuteScript js_click button_xpath; WaitClickable button_xpath 20;
               ExecuteScript js_click (label_xpath "Makati");
               WaitClickable (label_xpath "Makati") 10;
               SendKeys location_input "Makati"; Clear location_input;
               WaitVisible location_input 10; Get "https://site.test/search";
               Launch]
              "<html></html>") as (cs & Hcs & _); [reflexivity|].
  by exists cs.
Defined.

(** The Search button never becomes clickable: the markup is returned all
    the same, from a session without a click on Search. *)
Example markup_without_search_click :
  extract_html no_search_button blank_page 1 "https://site.test/search" "Makati"
    (Some 4) []
  = Returns "<html></html>"
      [Quit; PageSource; WaitClickable show_more 40;
       WaitClickable button_xpath 20;
       ExecuteScript js_click (label_xpath "Makati");
       WaitClickable (label_xpath "Makati") 10;
       SendKeys location_input "Makati"; Clear location_input;
       WaitVisible location_input 10; Get "https://site.test/search";
       Launch].
Proof. reflexivity. Qed.

End SessionMore.

(** ** The worker pool: refusals and the shape of its result *)

Module ParserMore.
Import PyStr PyStrFacts Parser ParserFacts.

(** X10.  The two parts of a response always make a conforming line: the
    building part never holds a pipe, and joining the parts with a pipe
    gives back a response that had one, and the response followed by a
    pipe when it had none. *)
Theorem split_response_parts (s : string) :
  ∃ building trans_type,
    split_response s = [building; trans_type]
    ∧ contains "|" building = false
    ∧ (contains "|" s = true → join "|" [building; trans_type] = s)
    ∧ (contains "|" s = false →
       building = s ∧ trans_type = EmptyString
       ∧ join "|" [building; trans_type] = s +:+ "|").
Proof.
  destruct (contains "|" s) eqn:E.
  - destruct (first_occurrence _ _ E) as (a & b & -> & Ha).
    exists a, b. split; [by apply split_response_cut|]. split; [done|].
    split; [done|]. discriminate.
  - exists s, EmptyString. unfold split_response. rewrite E.
    split; [done|]. split; [done|]. split; [discriminate|]. intros _.
    split; [done|]. split; [done|]. simpl. by rewrite (app_nil_r "|").
Qed.

Lemma executor_map_nothing {A B : Type} (fn : nat → A → B) (schedule : list nat) :
  executor_map fn [] schedule = Some [].
Proof.
  unfold executor_map. simpl. generalize 0%nat.
  induction schedule as [|i rest IH]; intros served; [done|]. simpl. apply IH.
Qed.

Lemma setitem_frame_Ok (df out : DataFrame) (keys : list string)
    (table : list (list string)) :
  setitem_frame df keys table = Ok out →
  length table = length (rows df) ∧ width table = length keys
  ∧ columns out = columns df ∪ list_to_set keys
  ∧ rows out = zip_with (assign keys) table (rows df).
Proof.
  unfold setitem_frame. repeat case_decide; [|done..]. by intros [= <-].
Qed.

(** X11.  [batch_parse] refuses, in this order: a bound on the workers
    that is not positive, a text column the frame does not have, and a
    frame without rows, whose two new columns cannot be built.  Whenever it
    does return a frame, none of the three was the case, the frame has as
    many rows as the input and its columns are those of the input and the
    two new ones. *)
Theorem batch_parse_refusals (model : nat → string → string → result string)
    (df : DataFrame) (text_column parse_description : string)
    (max_workers : Z) (schedule : list nat) :
  (max_workers ≤ 0 →
   batch_parse model df text_column parse_description max_workers schedule
   = Some (Err (ValueError "max_workers must be greater than 0")))
  ∧ (0 < max_workers → text_column ∉ columns df →
     batch_parse model df text_column parse_description max_workers schedule
     = Some (Err (KeyError text_column)))
  ∧ (0 < max_workers → text_column ∈ columns df → rows df = [] →
     batch_parse model df text_column parse_description max_workers schedule
     = Some (Err (ValueError "Columns must be same length as key")))
  ∧ (∀ out,
       batch_parse model df text_column parse_description max_workers schedule
       = Some (Ok out) →
       0 < max_workers ∧ text_column ∈ columns df ∧ rows df ≠ []
       ∧ length (rows out) = length (rows df)
       ∧ columns out = columns df ∪ {[ "building"; "trans_type" ]}).
Proof.
  unfold batch_parse, ThreadPoolExecutor, column.
  repeat match goal with |- _ ∧ _ => split end.
  - intros Hw. by rewrite (proj2 (Z.leb_le _ _) Hw).
  - intros Hw Hcol. by rewrite (proj2 (Z.leb_gt _ _) Hw), decide_False.
  - intros Hw Hcol Hrows.
    rewrite (proj2 (Z.leb_gt _ _) Hw), decide_True, Hrows by done. simpl.
    rewrite executor_map_nothing. unfold setitem_frame. by rewrite Hrows.
  - intros out. destruct (max_workers <=? 0) eqn:Hw; [done|].
    apply Z.leb_gt in Hw. case_decide as Hcol; [|done].
    destruct (executor_map _ _ _) as [outcomes|]; [|done].
    destruct (results_of outcomes) as [parsed|]; [|done].
    intros [= (Hlen & Hwidth & Hcols & Hrows)%setitem_frame_Ok].
    split; [done|]. split; [done|]. rewrite length_fmap in Hlen.
    split; [|split].
    + intros E. rewrite E in Hlen. destruct parsed; [|done]. done.
    + rewrite Hrows, length_zip_with, length_fmap. lia.
    + rewrite Hcols. set_solver.
Qed.


(** *** The order of completion *)

Lemma executor_map_content_only {A B : Type} (fn : nat → A → B)
    (iterable : list A) (schedule : list nat) :
  (∀ k k' x, fn k x = fn k' x) →
  schedule ≡ₚ seq 0 (length iterable) →
  executor_map fn iterable schedule = Some (fn 0%nat <$> iterable).
Proof.
  intros Hfn Hperm.
  destruct (executor_map_positional fn iterable schedule Hperm)
    as (results & -> & Hlen & Hres).
  f_equal. apply list_eq. intros i. rewrite list_lookup_fmap.
  destruct (iterable !! i) as [x|] eqn:E; simpl.
  - destruct (Hres i x E) as (k & _ & ->). f_equal. apply Hfn.
  - apply lookup_ge_None. rewrite Hlen. by apply lookup_ge_None.
Qed.

(** X17.  With a backend whose answer depends on the content alone, the
    result of [batch_parse], frame or error, is the same for every order in
    which the calls finish. *)
Theorem batch_parse_ignores_schedule (model : nat → string → string → result string)
    (df : DataFrame) (text_column parse_description : string)
    (max_workers : Z) (schedule1 schedule2 : list nat) :
  (∀ k k' content description,
     model k content description = model k' content description) →
  schedule1 ≡ₚ seq 0 (length (rows df)) →
  schedule2 ≡ₚ seq 0 (length (rows df)) →
  batch_parse model df text_column parse_description max_workers schedule1
  = batch_parse model df text_column parse_description max_workers schedule2.
Proof.
  intros Hmodel H1 H2. unfold batch_parse, column.
  destruct (ThreadPoolExecutor max_workers); [|done].
  case_decide; [|done].
  rewrite <- (length_fmap (λ r : gmap string string, r !! text_column)) in H1, H2.
  rewrite !executor_map_content_only; try done.
  all: intros k k' c; unfold parse_with_ollama; apply Hmodel.
Qed.

Lemma batch_parse_ignores_schedule_witness :
  batch_parse (λ _ content _, Ok (content +:+ "|sale")) sample_frame "title"
    "the building" 5 [1%nat; 0%nat]
  = batch_parse (λ _ content _, Ok (content +:+ "|sale")) sample_frame "title"
      "the building" 5 [0%nat; 1%nat].
Proof.
  apply (batch_parse_ignores_schedule (λ _ content _, Ok (content +:+ "|sale"))).
  - reflexivity.
  - apply Permutation_swap.
  - reflexivity.
Defined.

(** *** A call that raises *)




End ParserMore.

(** ** The stages together *)

Module PipelineMore.
Import PyStr Soup Carousell Parser Main.
Import ExtractorFacts SessionFacts CollectorFacts ParserFacts ParserMore.




Section Stages.
Variable BeautifulSoup : string → node.
Variable browser : history → command → option exn.
Variable page_source : history → string.



End Stages.


Section Script.
Variable BeautifulSoup : string → node.
Variable browser : history → command → option exn.
Variable page_source : history → string.
Variable model : nat → string → string → result string.



End Script.


(** The same page with a backend whose second call raises: the script ends
    with that exception, after the browser was closed. *)
Example script_backend_raises :
  normalised_listings (λ _, sample_document) single_screen blank_page
    failing_model 1 [1%nat; 0%nat] []
  = Raises (ValueError "Ollama call failed with status code 500")
      [Quit; PageSource; WaitClickable show_more 40;
       WaitClickable show_more_button_xpath 20;
       ExecuteScript js_click button_xpath; WaitClickable button_xpath 20;
       ExecuteScript js_click (label_xpath "Salcedo Village");
       WaitClickable (label_xpath "Salcedo Village") 10;
       SendKeys location_input "Salcedo Village"; Clear location_input;
       WaitVisible location_input 10; Get script_url; Launch].
Proof. reflexivity. Qed.

End PipelineMore.

(** ** The renaming of buildings in the script *)

Module MainMore.
Import PyStr PyStrFacts Main Vocabulary.

Lemma lower_char_idem (c : ascii) : lower_char (lower_char c) = lower_char c.
Proof. destruct c as [[] [] [] [] [] [] [] []]; reflexivity. Qed.

Lemma lower_idem (s : string) : lower (lower s) = lower s.
Proof. induction s as [|c s IH]; [done|]. simpl. by rewrite lower_char_idem, IH. Qed.

Lemma lower_app (a b : string) : lower (a +:+ b) = lower a +:+ lower b.
Proof. induction a as [|c a IH]; [done|]. rewrite !app_cons. simpl. by rewrite IH. Qed.

Lemma contains_empty (s : string) : contains EmptyString s = true.
Proof. by destruct s. Qed.

Lemma replace_title_renamed (row : gmap string string)
    (from_str to_str building : string) :
  row !! "building" = Some building →
  replace_title row from_str to_str
  = Ok (<["building" := renamed from_str to_str building]> row).
Proof.
  intros Hb. unfold replace_title, renamed. rewrite Hb.
  destruct (contains _ _); [done|]. by rewrite insert_id.
Qed.

(** X14.  [replace_title] fails with a [KeyError] on a row without a
    building; otherwise it returns the row with every other field as it was
    and the building either as it was or replaced by [to_str], and calling
    it again with the same arguments changes nothing more. *)
Theorem replace_title_touches_building_only (row : gmap string string)
    (from_str to_str : string) :
  match row !! "building" with
  | None => replace_title row from_str to_str = Err (KeyError "building")
  | Some building =>
      ∃ row',
        replace_title row from_str to_str = Ok row'
        ∧ (∀ key, key ≠ "building" → row' !! key = row !! key)
        ∧ (row' !! "building" = Some to_str ∨ row' = row)
        ∧ replace_title row' from_str to_str = Ok row'
  end.
Proof.
  destruct (row !! "building") as [building|] eqn:Hb.
  - unfold replace_title. rewrite Hb.
    destruct (contains (lower from_str) (lower building)) eqn:E.
    + eexists. split; [done|]. split; [|split].
      * intros key Hkey. by rewrite lookup_insert_ne.
      * left. by rewrite lookup_insert_eq.
      * rewrite lookup_insert_eq.
        destruct (contains _ (lower to_str)); [|done]. by rewrite insert_insert_eq.
    + exists row. split; [done|]. split; [done|]. split; [by right|].
      by rewrite Hb, E.
  - unfold replace_title. by rewrite Hb.
Qed.

(** X15.  The test of [replace_title] ignores case on both sides and looks
    anywhere in the building: a row is renamed exactly when the lower-cased
    [from_str] occurs in the lower-cased building, so the lower-cased
    [from_str] gives the same result, and an empty [from_str] renames every
    row. *)
Theorem replace_title_ignores_case (row : gmap string string)
    (from_str to_str building : string) :
  row !! "building" = Some building →
  replace_title row (lower from_str) to_str = replace_title row from_str to_str
  ∧ replace_title row EmptyString to_str = Ok (<["building" := to_str]> row)
  ∧ ((∃ a b, lower building = a +:+ lower from_str +:+ b) →
     replace_title row from_str to_str = Ok (<["building" := to_str]> row))
  ∧ ((∀ a b, lower building ≠ a +:+ lower from_str +:+ b) →
     replace_title row from_str to_str = Ok row).
Proof.
  intros Hb. unfold replace_title. rewrite Hb, lower_idem.
  split; [done|]. split; [by rewrite contains_empty|]. split.
  - intros H. by rewrite (proj2 (contains_spec _ _) H).
  - intros H. destruct (contains _ _) eqn:E; [|done].
    apply contains_spec in E as (a & b & E). by destruct (H a b).
Qed.

Lemma replace_title_ignores_case_witness :
  replace_title {[ "building" := "ONE SHANGRI-LA RISE" ]} "Rise" "The Rise"
  = Ok {[ "building" := "The Rise" ]}.
Proof.
  destruct (replace_title_ignores_case {[ "building" := "ONE SHANGRI-LA RISE" ]}
              "Rise" "The Rise" "ONE SHANGRI-LA RISE") as (_ & _ & Hin & _);
    [reflexivity|].
  rewrite Hin; [reflexivity|]. by exists "one shangri-la ", EmptyString.
Defined.

(** A building that merely contains the letters is renamed as well. *)
Example sunrise_becomes_the_rise :
  replace_titles {[ "building" := "Sunrise Tower"; "price" := "PHP 9" ]}
  = Ok {[ "building" := "The Rise"; "price" := "PHP 9" ]}.
Proof. reflexivity. Qed.

Lemma replace_titles_canonical (row : gmap string string) (building : string) :
  row !! "building" = Some building →
  replace_titles row = Ok (<["building" := canonical building]> row).
Proof.
  intros Hb. unfold replace_titles, canonical.
  rewrite (replace_title_renamed row _ _ building Hb).
  cbn [mbind result_bind rbind].
  do 3 (erewrite replace_title_renamed by apply lookup_insert_eq;
        cbn [mbind result_bind rbind]; rewrite insert_insert_eq).
  erewrite replace_title_renamed by apply lookup_insert_eq.
  by rewrite insert_insert_eq.
Qed.

Lemma canonical_cases (building : string) :
  canonical building = building
  ∨ canonical building ∈ ["Ellis"; "The Rise"; "Le Triomphe";
                           "Shang Salcedo Place"; "Two Roxas"].
Proof.
  unfold canonical.
  destruct (contains (lower "Ellis") (lower building)) eqn:E1;
    [right|destruct (contains (lower "Rise") (lower building)) eqn:E2;
      [right|destruct (contains (lower "Triomphe") (lower building)) eqn:E3;
        [right|destruct (contains (lower "Shang Salcedo") (lower building)) eqn:E4;
          [right|destruct (contains (lower "Two Roxas") (lower building)) eqn:E5;
            [right|left]]]]].
  all: unfold renamed at 5; rewrite E1.
  1: vm_compute; set_solver.
  all: unfold renamed at 4; rewrite E2.
  1: vm_compute; set_solver.
  all: unfold renamed at 3; rewrite E3.
  1: vm_compute; set_solver.
  all: unfold renamed at 2; rewrite E4.
  1: vm_compute; set_solver.
  all: unfold renamed; rewrite E5.
  - set_solver.
  - done.
Qed.

Lemma canonical_idem (building : string) :
  canonical (canonical building) = canonical building.
Proof.
  destruct (canonical_cases building) as [E | H]; [by rewrite !E|].
  repeat (apply elem_of_cons in H as [-> | H]; [reflexivity|]).
  by apply elem_of_nil in H.
Qed.

(** X16.  The five renamings of the script, applied to a row, leave its
    building as it was or set it to one of the five canonical names, touch
    no other field, and are stable: applying the five again changes
    nothing. *)
Theorem replace_titles_is_stable (row : gmap string string) (building : string) :
  row !! "building" = Some building →
  ∃ row' building',
    replace_titles row = Ok row'
    ∧ row' !! "building" = Some building'
    ∧ (building' = building
       ∨ building' ∈ ["Ellis"; "The Rise"; "Le Triomphe";
                      "Shang Salcedo Place"; "Two Roxas"])
    ∧ (∀ key, key ≠ "building" → row' !! key = row !! key)
    ∧ replace_titles row' = Ok row'.
Proof.
  intros Hb. exists (<["building" := canonical building]> row), (canonical building).
  split; [by apply replace_titles_canonical|].
  split; [by rewrite lookup_insert_eq|].
  split; [apply canonical_cases|]. split.
  - intros key Hkey. by rewrite lookup_insert_ne.
  - rewrite (replace_titles_canonical _ (canonical building))
      by apply lookup_insert_eq.
    by rewrite canonical_idem, insert_insert_eq.
Qed.

Lemma replace_titles_is_stable_witness :
  ∃ row',
    replace_titles {[ "building" := "le triomphe tower"; "price" := "PHP 9" ]}
    = Ok row'
    ∧ replace_titles row' = Ok row'.
Proof.
  destruct (replace_titles_is_stable
              {[ "building" := "le triomphe tower"; "price" := "PHP 9" ]}
              "le triomphe tower") as (row' & b & H1 & _ & _ & _ & H2);
    [reflexivity|].
  exists row'. split; [exact H1 | exact H2].
Defined.

End MainMore.
